(** * The frame compositing pipeline of process_frames.py and prerender_masks.py

    A shallow embedding of the numpy code: a two-dimensional array is a list
    of rows, an image array (h x w x channels) is a list of rows of pixels,
    and a pixel is the list of its channel values.  The 8-bit channel values
    are integers ([Z]); the range 0..255 is the predicate [uint8].

    The shading map is a float32 array.  A float32 number is the rational
    ([Q]) it denotes, and every operation of the code on float32 numbers is
    the exact operation followed by [Float32.round32], the rounding to the
    nearest number with a significand of 24 bits, a tie going to the even
    significand.  The exponent is not bounded: infinities, NaN and
    subnormal numbers are not part of the model; the luminances, shading
    values and bytes of this pipeline stay far from both ends of the
    exponent range. *)

From Stdlib Require Import ZArith QArith Qminmax Qround Qpower Qreduction.
From Stdlib Require Import Lia Lqa.
From stdpp Require Import base list.

(** ** numpy arrays *)

Module Numpy.

(** [a.shape] of a two-dimensional array. *)
Definition shape {A} (a : list (list A)) : nat * nat :=
  (length a, length (default [] (head a))).

(** [a[y, x]] as a read. *)
Definition get2 {A} (a : list (list A)) (y x : nat) : option A :=
  a !! y ≫= (.!! x).

(** [a[y, x] = v]. *)
Definition set2 {A} (a : list (list A)) (y x : nat) (v : A) : list (list A) :=
  alter (<[x := v]>) y a.

(** [a[y0:y1, x0:x1]]; a slice that runs over the edge is cut short. *)
Definition slice2 {A} (a : list (list A)) (y0 y1 x0 x1 : nat) : list (list A) :=
  (λ row, take (x1 - x0) (drop x0 row)) <$> take (y1 - y0) (drop y0 a).

(** [a > t], element by element. *)
Definition gt (a : list (list Z)) (t : Z) : list (list bool) :=
  fmap (M := list) (Z.ltb t) <$> a.

(** [np.any(m)]. *)
Definition any (m : list (list bool)) : bool :=
  existsb (existsb id) m.

(** Two arrays index each other with a boolean mask only when their rows
    have the same lengths; numpy raises IndexError otherwise. *)
Definition same_shape {A B} (a : list (list A)) (b : list (list B)) : bool :=
  bool_decide (length <$> a = length <$> b).

(** [a[m]]: the selected elements, in row-major order. *)
Definition select {A} (a : list (list A)) (m : list (list bool)) : list A :=
  concat (zip_with (λ ra rm,
    omap (λ p : A * bool, if p.2 then Some p.1 else None) (zip ra rm)) a m).

(** [target[m] = f(src[m])]: the value written at a selected position is
    computed from the element of [src] at the same position. *)
Definition assign_masked {A B} (f : B → A) (target : list (list A))
    (m : list (list bool)) (src : list (list B)) : list (list A) :=
  zip_with (λ rt rms,
    zip_with (λ t (p : bool * B), if p.1 then f p.2 else t) rt rms)
    target (zip_with zip m src).

(** [a[m, k] = v] on an image array, for a scalar [v]. *)
Definition assign_channel (k : nat) (v : Z) (m : list (list bool))
    (a : list (list (list Z))) : list (list (list Z)) :=
  assign_masked (λ px, <[k := v]> px) a m a.

(** [a[m, k] = values[m]]: channel [k] of a selected pixel gets the value
    at the same position. *)
Definition assign_channel_from (k : nat) (a : list (list (list Z)))
    (m : list (list bool)) (values : list (list Z)) : list (list (list Z)) :=
  zip_with (λ ra rmv,
    zip_with (λ px (p : bool * Z), if p.1 then <[k := p.2]> px else px) ra rmv)
    a (zip_with zip m values).

Definition zeros_like {A} (a : list (list A)) : list (list Q) :=
  fmap (M := list) (λ _, 0%Q) <$> a.

Definition ones_like {A} (a : list (list A)) : list (list Q) :=
  fmap (M := list) (λ _, 1%Q) <$> a.

(** [np.max] and [np.min] of a one-dimensional selection.  numpy raises on
    an empty one; the callers below only reach it with a selection that
    has an element. *)
Definition max (l : list Q) : Q :=
  match l with [] => 0%Q | x :: t => foldl Qmax x t end.

Definition min (l : list Q) : Q :=
  match l with [] => 0%Q | x :: t => foldl Qmin x t end.

(** [np.clip(x, lo, hi)] = minimum(maximum(x, lo), hi). *)
Definition clip (x lo hi : Q) : Q := Qmin (Qmax x lo) hi.

Definition clipZ (x lo hi : Z) : Z := Z.min (Z.max x lo) hi.

(** [astype(np.int16)]: two's complement on 16 bits. *)
Definition int16 (z : Z) : Z := ((z + 32768) mod 65536 - 32768)%Z.

(** int16 array + Python int: the sum stays an int16 and wraps. *)
Definition add_int16 (a b : Z) : Z := int16 (a + b).

(** The same sum on the uint8 array, without the widening. *)
Definition add_uint8 (a b : Z) : Z := ((a + b) mod 256)%Z.

(** [astype(np.uint8)] of a float: the fraction is dropped (towards zero)
    and the integer is reduced to 8 bits. *)
Definition astype_uint8 (q : Q) : Z :=
  (Z.quot (Qnum q) (Z.pos (Qden q)) mod 256)%Z.

End Numpy.

(** ** float32 arithmetic *)

Module Float32.

(** The binary exponent of a positive number: [2 ^ e <= q < 2 ^ (e + 1)]. *)
Definition ilog2 (q : Q) : Z :=
  let e0 := (Z.log2 (Qnum q) - Z.log2 (Z.pos (Qden q)))%Z in
  if Qle_bool (2 ^ e0)%Q q then e0 else (e0 - 1)%Z.

(** The nearest integer, a tie going to the even one. *)
Definition rne (m : Q) : Z :=
  let f := Qfloor m in
  match Qcompare (m - inject_Z f)%Q (1 # 2)%Q with
  | Lt => f
  | Gt => (f + 1)%Z
  | Eq => if Z.even f then f else (f + 1)%Z
  end.

(** The nearest number with a significand of [p] bits, for a positive [q]. *)
Definition round_pos (p : Z) (q : Q) : Q :=
  let u := (2 ^ (ilog2 q - (p - 1)))%Q in
  Qred (inject_Z (rne (q / u)%Q) * u)%Q.

Definition round (p : Z) (q : Q) : Q :=
  match Qcompare q 0%Q with
  | Eq => 0%Q
  | Gt => round_pos p q
  | Lt => (- round_pos p (- q))%Q
  end.

(** binary32 has a significand of 24 bits, binary64 one of 53 bits. *)
Definition round32 (q : Q) : Q := round 24 q.
Definition round64 (q : Q) : Q := round 53 q.

(** A Python float literal next to a float32 array: the literal is a
    binary64 number, and numpy converts it to float32 for the operation. *)
Definition of_float (x : Q) : Q := round32 (round64 x).

(** [astype(np.float32)] of a byte, and a Python int up to 2 ^ 24 next to a
    float32 array: the integer is a float32 number as it is. *)
Definition of_int (z : Z) : Q := inject_Z z.

(** The float literals of the code, as the float32 numbers that take part
    in the operations. *)
Definition f0_299 : Q := Eval vm_compute in of_float 0.299.
Definition f0_587 : Q := Eval vm_compute in of_float 0.587.
Definition f0_114 : Q := Eval vm_compute in of_float 0.114.
Definition f0_4 : Q := Eval vm_compute in of_float 0.4.
Definition f0_6 : Q := Eval vm_compute in of_float 0.6.

(** The four operations on float32 numbers: the exact result, rounded.
    The code divides by a positive number only. *)
Definition add (a b : Q) : Q := round32 (a + b)%Q.
Definition sub (a b : Q) : Q := round32 (a - b)%Q.
Definition mul (a b : Q) : Q := round32 (a * b)%Q.
Definition div (a b : Q) : Q := round32 (a / b)%Q.

End Float32.

Definition uint8 (z : Z) : Prop := (0 ≤ z ≤ 255)%Z.

(** Channel [k] of a pixel: [img_array[:, :, k]] at one position.  numpy
    raises IndexError for a channel the array does not have; the RGB and
    RGBA arrays of the pipeline have the three channels that are read. *)
Definition channel (k : nat) (px : list Z) : Z := default 0%Z (px !! k).

(** Every channel value of an image array is a byte. *)
Definition uint8_image (img : list (list (list Z))) : Prop :=
  Forall (Forall (Forall uint8)) img.

(** [img.convert("RGBA")]: an RGB pixel gets the opaque alpha 255, an RGBA
    pixel is kept.  The images of the pipeline have one of these two
    modes. *)
Definition to_RGBA (px : list Z) : list Z :=
  match px with [r; g; b] => [r; g; b; 255%Z] | _ => px end.

Definition convert_RGBA (img : list (list (list Z))) : list (list (list Z)) :=
  fmap (M := list) to_RGBA <$> img.

(** [img.size]: width before height. *)
Definition size {A} (img : list (list A)) : nat * nat :=
  ((Numpy.shape img).2, (Numpy.shape img).1).

(** ** process_frames.py *)

(** The body of the two for loops of [dilate_mask] at one position: the
    3x3 window is read from [result], the write goes to [dilated]. *)
Definition dilate_at (result : list (list Z)) (y : nat)
    (dilated : list (list Z)) (x : nat) : list (list Z) :=
  let neighborhood := Numpy.slice2 result (y - 1) (y + 2) (x - 1) (x + 2) in
  if Numpy.any (Numpy.gt neighborhood 4) then Numpy.set2 dilated y x 255%Z
  else dilated.

(** One iteration: [dilated = result.copy()], then the loops over
    [range(1, h - 1)] and [range(1, w - 1)]. *)
Definition dilate_once (result : list (list Z)) : list (list Z) :=
  let '(h, w) := Numpy.shape result in
  foldl (λ dilated y, foldl (dilate_at result y) dilated (seq 1 (w - 2)))
    result (seq 1 (h - 2)).

Fixpoint dilate_loop (n : nat) (result : list (list Z)) : list (list Z) :=
  match n with
  | O => result
  | S n' => dilate_loop n' (dilate_once result)
  end.

(** [range(iterations)] is empty for a negative count. *)
Definition dilate_mask (mask : list (list Z)) (iterations : Z) : list (list Z) :=
  dilate_loop (Z.to_nat iterations) mask.

Definition is_black (px : list Z) : bool :=
  let r := channel 0 px in let g := channel 1 px in let b := channel 2 px in
  (r <? 140)%Z && (g <? 140)%Z && (b <? 140)%Z.

Definition extract_black_lines (img : list (list (list Z))) : list (list Z) :=
  fmap (M := list) (λ px, if is_black px then 255%Z else 0%Z) <$> img.

Definition is_yellow (px : list Z) : bool :=
  let r := channel 0 px in let g := channel 1 px in let b := channel 2 px in
  (180 <? r)%Z && (120 <? g)%Z && (b <? 150)%Z && (b <? r)%Z && (b <? g)%Z.

Definition create_yellow_mask (img : list (list (list Z))) : list (list Z) :=
  let mask := fmap (M := list) (λ px, if is_yellow px then 255%Z else 0%Z) <$> img in
  dilate_mask mask 4.

(** The test of [remove_green_screen] at one pixel, on the channels widened
    to int16. *)
Definition green_mask (threshold : Z) (aggressive : bool) (px : list Z) : bool :=
  let r := Numpy.int16 (channel 0 px) in
  let g := Numpy.int16 (channel 1 px) in
  let b := Numpy.int16 (channel 2 px) in
  if aggressive then
    (100 <? g)%Z && (r <? g)%Z && (b <? g)%Z
  else
    (threshold <? g)%Z && (Numpy.add_int16 r 30 <? g)%Z
      && (Numpy.add_int16 b 30 <? g)%Z && (r <? 100)%Z.

Definition remove_green_screen (img : list (list (list Z))) (threshold : Z)
    (aggressive : bool) : list (list (list Z)) :=
  let img_array := convert_RGBA img in
  let mask := fmap (M := list) (green_mask threshold aggressive) <$> img_array in
  Numpy.assign_channel 3 0%Z mask img_array.

(** [0.299 * r + 0.587 * g + 0.114 * b] at one position, on the channels
    converted to float32: three float32 products, added from the left. *)
Definition luminance (px : list Z) : Q :=
  let r := Float32.of_int (channel 0 px) in
  let g := Float32.of_int (channel 1 px) in
  let b := Float32.of_int (channel 2 px) in
  Float32.add
    (Float32.add (Float32.mul Float32.f0_299 r) (Float32.mul Float32.f0_587 g))
    (Float32.mul Float32.f0_114 b).

(** [None] is the IndexError of a mask that does not fit the image.  The
    difference and the quotient of the normalisation are float32
    operations; [max_luminance > min_luminance] compares two float32
    numbers; of the bounds of [np.clip], 0.4 becomes the nearest float32
    number and 1.0 is one. *)
Definition extract_shading_map (base_img : list (list (list Z)))
    (mask : list (list Z)) : option (list (list Q)) :=
  let lum := fmap (M := list) luminance <$> base_img in
  let mask_bool := Numpy.gt mask 128 in
  if Numpy.any mask_bool then
    if Numpy.same_shape lum mask_bool then
      let max_luminance := Numpy.max (Numpy.select lum mask_bool) in
      let min_luminance := Numpy.min (Numpy.select lum mask_bool) in
      let shading_map := Numpy.zeros_like lum in
      if Qlt_le_dec min_luminance max_luminance then
        let shading_map :=
          Numpy.assign_masked
            (λ l, Float32.div (Float32.sub l min_luminance)
                              (Float32.sub max_luminance min_luminance))
            shading_map mask_bool lum in
        Some (Numpy.assign_masked (λ s, Numpy.clip s Float32.f0_4 1.0%Q)
                shading_map mask_bool shading_map)
      else
        Some (Numpy.assign_masked (λ _, 1.0%Q) shading_map mask_bool lum)
    else None
  else Some (Numpy.ones_like lum).

(** [result[mask_bool, k] = (texture_array[mask_bool, k] *
    shading_map[mask_bool]).astype(np.uint8)]. *)
Definition shade_channel (k : nat) (result : list (list (list Z)))
    (mask_bool : list (list bool)) (texture_array : list (list (list Z)))
    (shading_map : list (list Q)) : list (list (list Z)) :=
  let shaded :=
    zip_with (zip_with (λ px s,
      Numpy.astype_uint8 (Float32.mul (Float32.of_int (channel k px)) s)))
      texture_array shading_map in
  Numpy.assign_channel_from k result mask_bool shaded.

Definition overlay_black_lines (base_img : list (list (list Z)))
    (line_mask : list (list Z)) : option (list (list (list Z))) :=
  let line_pixels := Numpy.gt line_mask 128 in
  if Numpy.same_shape base_img line_pixels then
    Some (Numpy.assign_channel 2 0%Z line_pixels
           (Numpy.assign_channel 1 0%Z line_pixels
             (Numpy.assign_channel 0 0%Z line_pixels base_img)))
  else None.

Section Resampling.

(** [Image.resize(size, Image.Resampling.LANCZOS)] of PIL: the resampling
    filter is not part of this repository. *)
Variable resize :
  list (list (list Z)) → nat * nat → list (list (list Z)).

Definition apply_texture_to_mask (base_img texture_img : list (list (list Z)))
    (mask : list (list Z)) (original_img : option (list (list (list Z))))
    : option (list (list (list Z))) :=
  let texture_img :=
    if decide (size texture_img = size base_img) then texture_img
    else resize texture_img (size base_img) in
  let texture_array := convert_RGBA texture_img in
  let source_for_shading := default base_img original_img in
  shading_map ← extract_shading_map source_for_shading mask;
  let mask_bool := Numpy.gt mask 128 in
  if Numpy.same_shape base_img mask_bool
     && Numpy.same_shape texture_array mask_bool
     && Numpy.same_shape shading_map mask_bool
  then
    let result := base_img in
    let result := shade_channel 0 result mask_bool texture_array shading_map in
    let result := shade_channel 1 result mask_bool texture_array shading_map in
    let result := shade_channel 2 result mask_bool texture_array shading_map in
    Some result
  else None.

(** [process_frame] up to [result], before the downsampling.  The frame
    and the texture are the loaded images; [texture] is [None] when no
    texture path is given or the file does not exist. *)
Definition process_frame_result (frame : list (list (list Z)))
    (texture : option (list (list (list Z))))
    : option (list (list (list Z))) :=
  let mask := create_yellow_mask frame in
  let line_mask := extract_black_lines frame in
  let frame_no_green := remove_green_screen frame 100 false in
  result ← match texture with
            | Some texture =>
                result ← apply_texture_to_mask frame_no_green texture mask
                           (Some frame);
                Some (remove_green_screen result 100 true)
            | None => Some frame_no_green
            end;
  overlay_black_lines result line_mask.

Definition process_frame (frame : list (list (list Z)))
    (texture : option (list (list (list Z))))
    : option (list (list (list Z))) :=
  result ← process_frame_result frame texture;
  Some (resize result (128, 128)%nat).

End Resampling.

(** ** prerender_masks.py *)

(** [shading_array] is the float32 array of [extract_shading_map]; the
    subtraction, the division and the product stay in float32. *)
Definition convert_shading_to_uint8 (shading_map : list (list Q))
    : list (list Z) :=
  let uint8_shading :=
    fmap (M := list)
      (λ v, Numpy.astype_uint8
              (Float32.mul
                 (Float32.div (Float32.sub v Float32.f0_4) Float32.f0_6)
                 (Float32.of_int 255))) <$> shading_map in
  fmap (M := list) (λ b, Numpy.clipZ b 102 255) <$> uint8_shading.

(** The four arrays that [prerender_frame_masks] saves for a frame. *)
Record prerendered := Prerendered {
  yellow_mask : list (list Z);
  black_lines : list (list Z);
  shading_uint8 : list (list Z);
  base_frame : list (list (list Z))
}.

(** [prerender_frame_masks], from the loaded frame to the arrays it saves:
    the dilated yellow mask, the line mask, the stored shading map, and the
    frame after the standard and then the aggressive green removal. *)
Definition prerender_frame_masks (frame : list (list (list Z)))
    : option prerendered :=
  let yellow_mask := create_yellow_mask frame in
  let black_lines := extract_black_lines frame in
  shading_map ← extract_shading_map frame yellow_mask;
  let shading_uint8 := convert_shading_to_uint8 shading_map in
  let frame_no_green := remove_green_screen frame 100 false in
  let frame_no_green := remove_green_screen frame_no_green 100 true in
  Some (Prerendered yellow_mask black_lines shading_uint8 frame_no_green).

(** ** Notions used by the statements *)

(** [a] and [b] are at most [k] apart. *)
Definition near (k a b : nat) : Prop := a ≤ b + k ∧ b ≤ a + k.

(** Some pixel of the 3x3 window around (y, x) is above the noise
    threshold 4. *)
Definition window_hit (mask : list (list Z)) (y x : nat) : Prop :=
  ∃ y0 x0 v, near 1 y y0 ∧ near 1 x x0
    ∧ Numpy.get2 mask y0 x0 = Some v ∧ (4 < v)%Z.

(** The test of [dilate_at] on the 3x3 window around (y, x). *)
Definition window (result : list (list Z)) (y x : nat) : bool :=
  Numpy.any (Numpy.gt (Numpy.slice2 result (y - 1) (y + 2) (x - 1) (x + 2)) 4).

(** (y, x) is inside the outermost ring of an h x w array. *)
Definition interior (h w y x : nat) : Prop :=
  1 ≤ y ∧ y + 1 < h ∧ 1 ≤ x ∧ x + 1 < w.

(** What [remove_green_screen] makes of one pixel: the RGBA pixel, with
    alpha 0 when the test holds. *)
Definition keyed (threshold : Z) (aggressive : bool) (p : list Z) : list Z :=
  let px := to_RGBA p in
  if green_mask threshold aggressive px then <[3 := 0%Z]> px else px.

(** What [overlay_black_lines] makes of a pixel of the line mask. *)
Definition blackened (px : list Z) : list Z :=
  <[2 := 0%Z]> (<[1 := 0%Z]> (<[0 := 0%Z]> px)).

(** What [apply_texture_to_mask] makes of a pixel of the fill mask, from the
    texture pixel [t] and the shading value [s]. *)
Definition textured (t : list Z) (s : Q) (px : list Z) : list Z :=
  let shaded k :=
    Numpy.astype_uint8 (Float32.mul (Float32.of_int (channel k t)) s) in
  <[2 := shaded 2]> (<[1 := shaded 1]> (<[0 := shaded 0]> px)).

(** What [convert_shading_to_uint8] makes of one shading value. *)
Definition stored_byte (v : Q) : Z :=
  Numpy.clipZ
    (Numpy.astype_uint8
       (Float32.mul
          (Float32.div (Float32.sub v Float32.f0_4) Float32.f0_6)
          (Float32.of_int 255)))
    102 255.

(** Every pixel has three or four channels: an RGB or an RGBA array. *)
Definition rgb_or_rgba (img : list (list (list Z))) : Prop :=
  Forall (Forall (λ px : list Z, length px = 3 ∨ length px = 4)) img.


(** A pixel of a mask is a member at threshold [t] when its value is above
    [t]: the dilation reads the mask at threshold 4, the compositing stages
    at threshold 128. *)
Definition member (t : Z) (mask : list (list Z)) (y x : nat) : Prop :=
  ∃ v, Numpy.get2 mask y x = Some v ∧ (t < v)%Z.

(** Every pixel that exists in [a] exists in [b] with the same value or
    with 255. *)
Definition grown (a b : list (list Z)) : Prop :=
  ∀ y x v, Numpy.get2 a y x = Some v →
    Numpy.get2 b y x = Some v ∨ Numpy.get2 b y x = Some 255%Z.

(** [l] is the luminance of a pixel of the masked region of [base_img]. *)
Definition masked_luminance (base_img : list (list (list Z)))
    (mask : list (list Z)) (l : Q) : Prop :=
  ∃ y x px v, Numpy.get2 base_img y x = Some px
    ∧ Numpy.get2 mask y x = Some v ∧ (128 < v)%Z ∧ l = luminance px.

(** The largest and the smallest luminance within the masked region. *)
Definition max_luminance_of (base_img : list (list (list Z)))
    (mask : list (list Z)) (m : Q) : Prop :=
  masked_luminance base_img mask m
  ∧ ∀ l, masked_luminance base_img mask l → (l <= m)%Q.

Definition min_luminance_of (base_img : list (list (list Z)))
    (mask : list (list Z)) (m : Q) : Prop :=
  masked_luminance base_img mask m
  ∧ ∀ l, masked_luminance base_img mask l → (m <= l)%Q.

(** The linear map that sends shading 0.4 to 102 and shading 1.0 to 255,
    as the docstring of [convert_shading_to_uint8] announces it. *)
Definition linear_102_255 (v : Q) : Q :=
  (102 + (v - 0.4) / (1.0 - 0.4) * (255 - 102))%Q.

(** * Properties *)

(** ** float32 rounding *)

Section Float32Facts.

Import Float32.
Local Open Scope Q_scope.

Lemma pow2_pos e : 0 < 2 ^ e.
Proof. apply Qpower_0_lt. reflexivity. Qed.

Lemma pow2_succ e : 2 ^ (e + 1) == 2 * 2 ^ e.
Proof.
  rewrite Qpower_plus by discriminate.
  change (2 ^ 1) with 2. ring.
Qed.

Lemma pow2_le e1 e2 : (e1 <= e2)%Z -> 2 ^ e1 <= 2 ^ e2.
Proof. intros H. apply Qpower_le_compat_l; [exact H | discriminate]. Qed.

Lemma Qdiv_lt_div (n d a b : Q) :
  0 < d -> 0 < b -> n * b < a * d -> n / d < a / b.
Proof.
  intros Hd Hb H. apply Qlt_shift_div_r; [exact Hd|].
  setoid_replace (a / b * d) with (a * d / b) using relation Qeq
    by (field; lra).
  apply Qlt_shift_div_l; assumption.
Qed.

Lemma Qdiv_le_div (n d a b : Q) :
  0 < d -> 0 < b -> n * b <= a * d -> n / d <= a / b.
Proof.
  intros Hd Hb H. apply Qle_shift_div_r; [exact Hd|].
  setoid_replace (a / b * d) with (a * d / b) using relation Qeq
    by (field; lra).
  apply Qle_shift_div_l; assumption.
Qed.

Lemma ilog2_spec q : 0 < q -> 2 ^ ilog2 q <= q /\ q < 2 ^ (ilog2 q + 1).
Proof.
  destruct q as [n d]. intros Hq.
  assert (Hn : (0 < n)%Z) by (unfold Qlt in Hq; simpl in Hq; lia).
  unfold ilog2. cbn [Qnum Qden].
  pose proof (Z.log2_spec n Hn) as [Ha1 Ha2].
  pose proof (Z.log2_spec (Z.pos d) eq_refl) as [Hb1 Hb2].
  pose proof (Z.log2_nonneg n) as Ha0.
  pose proof (Z.log2_nonneg (Z.pos d)) as Hb0.
  set (a := Z.log2 n) in *. set (b := Z.log2 (Z.pos d)) in *.
  assert (HA1 : 2 ^ a <= inject_Z n).
  { change 2 with (inject_Z 2). rewrite <- Zpower_Qpower by lia.
    rewrite <- Zle_Qle. exact Ha1. }
  assert (HA2 : inject_Z n < 2 * 2 ^ a).
  { rewrite <- pow2_succ. change 2 with (inject_Z 2).
    rewrite <- Zpower_Qpower by lia. rewrite <- Zlt_Qlt. exact Ha2. }
  assert (HB1 : 2 ^ b <= inject_Z (Z.pos d)).
  { change 2 with (inject_Z 2). rewrite <- Zpower_Qpower by lia.
    rewrite <- Zle_Qle. exact Hb1. }
  assert (HB2 : inject_Z (Z.pos d) < 2 * 2 ^ b).
  { rewrite <- pow2_succ. change 2 with (inject_Z 2).
    rewrite <- Zpower_Qpower by lia. rewrite <- Zlt_Qlt. exact Hb2. }
  pose proof (pow2_pos a) as HA0. pose proof (pow2_pos b) as HB0.
  assert (HD : 0 < inject_Z (Z.pos d)) by reflexivity.
  pose proof (Qmake_Qdiv n d) as Hnd.
  destruct (Qle_bool (2 ^ (a - b)) (n # d)) eqn:E.
  - apply Qle_bool_iff in E. split; [exact E|].
    rewrite pow2_succ, Qpower_minus, Hnd by discriminate.
    setoid_replace (2 * (2 ^ a / 2 ^ b)) with ((2 * 2 ^ a) / 2 ^ b)
      using relation Qeq by (field; lra).
    apply Qdiv_lt_div; [assumption..|]. nra.
  - assert (E' : n # d < 2 ^ (a - b)).
    { apply Qnot_le_lt. intros H. apply Qle_bool_iff in H. congruence. }
    split.
    + replace (a - b - 1)%Z with (a - (b + 1))%Z by lia.
      rewrite Qpower_minus, pow2_succ, Hnd by discriminate.
      apply Qdiv_le_div; [lra | assumption |]. nra.
    + replace (a - b - 1 + 1)%Z with (a - b)%Z by lia. exact E'.
Qed.

Lemma ilog2_unique q e :
  2 ^ e <= q -> q < 2 ^ (e + 1) -> ilog2 q = e.
Proof.
  intros H1 H2.
  assert (Hq : 0 < q) by (pose proof (pow2_pos e); lra).
  destruct (ilog2_spec q Hq) as [H3 H4].
  assert (e < ilog2 q + 1)%Z.
  { apply (Qpower_lt_compat_l_inv 2); [lra | reflexivity]. }
  assert (ilog2 q < e + 1)%Z.
  { apply (Qpower_lt_compat_l_inv 2); [lra | reflexivity]. }
  lia.
Qed.

Lemma ilog2_comp q q' : 0 < q -> q == q' -> ilog2 q = ilog2 q'.
Proof.
  intros Hq Heq. symmetry. destruct (ilog2_spec q Hq) as [H1 H2].
  apply ilog2_unique; rewrite <- Heq; assumption.
Qed.

Lemma ilog2_mono x y : 0 < x -> x <= y -> (ilog2 x <= ilog2 y)%Z.
Proof.
  intros Hx Hxy.
  destruct (ilog2_spec x Hx) as [H1 _].
  destruct (ilog2_spec y) as [_ H2]; [lra|].
  assert (ilog2 x < ilog2 y + 1)%Z; [|lia].
  apply (Qpower_lt_compat_l_inv 2); [lra | reflexivity].
Qed.

Lemma rne_comp m m' : m == m' -> rne m = rne m'.
Proof.
  intros H. unfold rne. rewrite (Qfloor_comp _ _ H).
  assert (E : m - inject_Z (Qfloor m') == m' - inject_Z (Qfloor m'))
    by (rewrite H; reflexivity).
  rewrite (Qcompare_comp _ _ E _ _ (Qeq_refl _)). reflexivity.
Qed.

Lemma rne_inject_Z z : rne (inject_Z z) = z.
Proof.
  unfold rne. rewrite Qfloor_Z.
  assert (E : inject_Z z - inject_Z z == 0) by ring.
  rewrite (Qcompare_comp _ _ E _ _ (Qeq_refl _)). reflexivity.
Qed.

Lemma rne_floor m : (Qfloor m <= rne m <= Qfloor m + 1)%Z.
Proof.
  unfold rne. destruct (Qcompare _ _); [destruct (Z.even _)|..]; lia.
Qed.

Lemma rne_mono m1 m2 : m1 <= m2 -> (rne m1 <= rne m2)%Z.
Proof.
  intros H. pose proof (Qfloor_resp_le _ _ H) as Hf.
  destruct (Z.eq_dec (Qfloor m1) (Qfloor m2)) as [E|NE].
  - unfold rne. rewrite E.
    destruct (Qcompare_spec (m1 - inject_Z (Qfloor m2)) (1 # 2));
      destruct (Qcompare_spec (m2 - inject_Z (Qfloor m2)) (1 # 2));
      try destruct (Z.even _); try lia; lra.
  - pose proof (rne_floor m1). pose proof (rne_floor m2). lia.
Qed.

Lemma round_pos_eq q :
  round_pos 24 q == inject_Z (rne (q / 2 ^ (ilog2 q - 23))) * 2 ^ (ilog2 q - 23).
Proof. apply Qred_correct. Qed.

Lemma pow2_23_ulp e : 2 ^ 23 * 2 ^ (e - 23) == 2 ^ e.
Proof.
  rewrite <- Qpower_plus by discriminate.
  replace (23 + (e - 23))%Z with e by lia. reflexivity.
Qed.

Lemma mantissa_range q :
  0 < q ->
  2 ^ 23 <= q / 2 ^ (ilog2 q - 23) /\ q / 2 ^ (ilog2 q - 23) <= 2 ^ 24.
Proof.
  intros Hq. destruct (ilog2_spec q Hq) as [H1 H2].
  pose proof (pow2_pos (ilog2 q - 23)) as Hu.
  pose proof (pow2_23_ulp (ilog2 q)) as E.
  rewrite pow2_succ in H2. split.
  - apply Qle_shift_div_l; [exact Hu|]. rewrite E. exact H1.
  - apply Qle_shift_div_r; [exact Hu|].
    change (2 ^ 24) with (2 * 2 ^ 23).
    rewrite <- Qmult_assoc, E. lra.
Qed.

Lemma round_pos_bounds q :
  0 < q -> 2 ^ ilog2 q <= round_pos 24 q /\ round_pos 24 q <= 2 ^ (ilog2 q + 1).
Proof.
  intros Hq. destruct (mantissa_range q Hq) as [H1 H2].
  pose proof (pow2_pos (ilog2 q - 23)) as Hu.
  pose proof (pow2_23_ulp (ilog2 q)) as E.
  apply rne_mono in H1, H2.
  change (2 ^ 23) with (inject_Z 8388608) in H1.
  change (2 ^ 24) with (inject_Z 16777216) in H2.
  rewrite rne_inject_Z in H1, H2.
  rewrite Zle_Qle in H1, H2.
  rewrite round_pos_eq, pow2_succ, <- E.
  change (2 ^ 23) with (inject_Z 8388608).
  change (inject_Z 16777216) with (2 * inject_Z 8388608) in H2.
  split.
  - apply Qmult_le_compat_r; lra.
  - rewrite Qmult_assoc. apply Qmult_le_compat_r; lra.
Qed.

Lemma round_pos_pos q : 0 < q -> 0 < round_pos 24 q.
Proof.
  intros Hq. destruct (round_pos_bounds q Hq) as [H _].
  pose proof (pow2_pos (ilog2 q)). lra.
Qed.

Lemma round_pos_comp q q' : 0 < q -> q == q' -> round_pos 24 q = round_pos 24 q'.
Proof.
  intros Hq E. unfold Float32.round_pos. change (24 - 1)%Z with 23%Z.
  rewrite <- (ilog2_comp q q' Hq E).
  apply Qred_complete.
  rewrite (rne_comp (q / 2 ^ (ilog2 q - 23)) (q' / 2 ^ (ilog2 q - 23)))
    by (apply Qmult_comp; [exact E | reflexivity]).
  reflexivity.
Qed.

Lemma round_pos_mono x y : 0 < x -> x <= y -> round_pos 24 x <= round_pos 24 y.
Proof.
  intros Hx Hxy. assert (Hy : 0 < y) by lra.
  pose proof (ilog2_mono x y Hx Hxy) as He.
  destruct (Z.eq_dec (ilog2 x) (ilog2 y)) as [E|NE].
  - rewrite !round_pos_eq, E.
    pose proof (pow2_pos (ilog2 y - 23)) as Hu.
    apply Qmult_le_compat_r; [|lra].
    rewrite <- Zle_Qle. apply rne_mono.
    apply Qmult_le_compat_r; [exact Hxy|].
    apply Qlt_le_weak, Qinv_lt_0_compat, Hu.
  - destruct (round_pos_bounds x Hx) as [_ H1].
    destruct (round_pos_bounds y Hy) as [H2 _].
    pose proof (pow2_le (ilog2 x + 1) (ilog2 y) ltac:(lia)). lra.
Qed.

Lemma round32_comp q q' : q == q' -> round32 q = round32 q'.
Proof.
  intros E. unfold round32, round.
  rewrite (Qcompare_comp _ _ E _ _ (Qeq_refl 0)).
  destruct (Qcompare_spec q' 0) as [H|H|H]; [reflexivity|..].
  - f_equal. apply round_pos_comp; lra.
  - apply round_pos_comp; lra.
Qed.

Lemma round32_mono x y : x <= y -> round32 x <= round32 y.
Proof.
  intros H. unfold round32, round.
  destruct (Qcompare_spec x 0) as [Hx|Hx|Hx];
    destruct (Qcompare_spec y 0) as [Hy|Hy|Hy]; try lra.
  - pose proof (round_pos_pos y). lra.
  - pose proof (round_pos_pos (- x)). lra.
  - apply Qopp_le_compat, round_pos_mono; lra.
  - pose proof (round_pos_pos (- x)). pose proof (round_pos_pos y). lra.
  - apply round_pos_mono; lra.
Qed.

Lemma Qred_inject_Z z : Qred (inject_Z z) = inject_Z z.
Proof.
  unfold Qred, inject_Z.
  pose proof (Z.ggcd_correct_divisors z 1) as H.
  pose proof (Z.ggcd_gcd z 1) as Hg.
  destruct (Z.ggcd z 1) as [g [aa bb]]. simpl in Hg. destruct H as [H1 H2].
  rewrite Z.gcd_1_r in Hg. subst g.
  replace aa with z by lia. replace bb with 1%Z by lia. reflexivity.
Qed.

Lemma round32_inject_Z z :
  (0 <= z < 2 ^ 24)%Z -> round32 (inject_Z z) = inject_Z z.
Proof.
  intros [Hz0 Hz]. unfold round32, round.
  destruct (Qcompare_spec (inject_Z z) 0) as [H|H|H].
  - change 0 with (inject_Z 0) in H. rewrite inject_Z_injective in H.
    rewrite H. reflexivity.
  - change 0 with (inject_Z 0) in H. rewrite <- Zlt_Qlt in H. lia.
  - destruct (ilog2_spec _ H) as [H1 H2].
    set (e := ilog2 (inject_Z z)) in *.
    assert (He : (e < 24)%Z).
    { apply (Qpower_lt_compat_l_inv 2); [|reflexivity].
      apply Qle_lt_trans with (inject_Z z); [exact H1|].
      change (2 ^ 24) with (inject_Z (2 ^ 24)). rewrite <- Zlt_Qlt. exact Hz. }
    assert (Eu : 2 ^ (e - 23) == / inject_Z (2 ^ (23 - e))).
    { rewrite Zpower_Qpower by lia. rewrite <- Qpower_opp.
      replace (- (23 - e))%Z with (e - 23)%Z by lia. reflexivity. }
    assert (Hk : 0 < inject_Z (2 ^ (23 - e))).
    { rewrite Zpower_Qpower by lia. apply pow2_pos. }
    assert (Em : inject_Z z / 2 ^ (e - 23) == inject_Z (z * 2 ^ (23 - e))).
    { rewrite Eu, inject_Z_mult. field. lra. }
    unfold Float32.round_pos. fold e. change (24 - 1)%Z with 23%Z.
    rewrite (rne_comp _ _ Em), rne_inject_Z.
    transitivity (Qred (inject_Z z)).
    + apply Qred_complete. rewrite Eu, inject_Z_mult. field. lra.
    + apply Qred_inject_Z.
Qed.

Lemma round32_opp q : round32 (- q) == - round32 q.
Proof.
  unfold round32, round.
  destruct (Qcompare_spec q 0) as [H|H|H];
    destruct (Qcompare_spec (- q) 0) as [H'|H'|H']; try lra.
  rewrite (round_pos_comp (- - q) q) by lra. reflexivity.
Qed.

(** The operations keep the order of their first operand. *)
Lemma sub_mono a b c : a <= b -> sub a c <= sub b c.
Proof. intros H. apply round32_mono. lra. Qed.

Lemma div_mono a b c : 0 < c -> a <= b -> div a c <= div b c.
Proof.
  intros Hc H. apply round32_mono. unfold Qdiv.
  apply Qmult_le_compat_r; [exact H|].
  apply Qlt_le_weak, Qinv_lt_0_compat, Hc.
Qed.

Lemma mul_mono a b c : 0 <= c -> a <= b -> mul a c <= mul b c.
Proof. intros Hc H. apply round32_mono. by apply Qmult_le_compat_r. Qed.

Lemma mul_mono_r a b c : 0 <= c -> a <= b -> mul c a <= mul c b.
Proof.
  intros Hc H. apply round32_mono. rewrite !(Qmult_comm c).
  by apply Qmult_le_compat_r.
Qed.

Lemma round32_pos q : 0 < q -> 0 < round32 q.
Proof.
  intros H. unfold round32, round.
  destruct (Qcompare_spec q 0) as [E|E|E]; [lra | lra |].
  by apply round_pos_pos.
Qed.

(** A difference of equal numbers is 0, a quotient of equal numbers 1. *)
Lemma sub_diag a b : a == b -> sub a b = 0.
Proof.
  intros H. unfold sub. rewrite (round32_comp (a - b) 0) by lra. reflexivity.
Qed.

Lemma div_diag a : 0 < a -> div a a = 1.
Proof.
  intros H. unfold div.
  rewrite (round32_comp (a / a) 1) by (field; lra). reflexivity.
Qed.

Lemma div_0_l a : div 0 a = 0.
Proof.
  unfold div. rewrite (round32_comp (0 / a) 0); [reflexivity|].
  unfold Qdiv. apply Qmult_0_l.
Qed.

End Float32Facts.

(** ** Array lemmas *)

Section get2.
Context {A B : Type}.
Implicit Types (a : list (list A)) (b : list (list B)).

Lemma get2_fmap (f : A → B) a y x :
  Numpy.get2 (fmap (M := list) f <$> a) y x = f <$> Numpy.get2 a y x.
Proof.
  unfold Numpy.get2. rewrite list_lookup_fmap.
  destruct (a !! y) as [row|]; simpl; [|done].
  by rewrite list_lookup_fmap.
Qed.

Lemma get2_set2 a y x v y' x' :
  Numpy.get2 (Numpy.set2 a y x v) y' x' =
    if decide (y = y' ∧ x = x')
    then (λ _, v) <$> Numpy.get2 a y x
    else Numpy.get2 a y' x'.
Proof.
  unfold Numpy.get2, Numpy.set2. rewrite list_lookup_alter.
  destruct (decide (y = y')) as [->|Hy].
  - destruct (a !! y') as [row|]; simpl.
    + destruct (decide (x = x')) as [->|Hx].
      * rewrite decide_True by done.
        destruct (row !! x') eqn:E.
        -- rewrite list_lookup_insert_eq; [done|]. by eapply lookup_lt_Some.
        -- simpl. apply lookup_ge_None. rewrite length_insert.
           by apply lookup_ge_None.
      * rewrite decide_False by (intros [_ ?]; done).
        by rewrite list_lookup_insert_ne.
    + by destruct (decide _).
  - rewrite decide_False by (intros [? _]; done). done.
Qed.

Lemma get2_zip_with {C} (f : A → B → C) a b y x :
  Numpy.get2 (zip_with (zip_with f) a b) y x =
    Numpy.get2 a y x ≫= λ u, Numpy.get2 b y x ≫= λ v, Some (f u v).
Proof.
  unfold Numpy.get2. rewrite lookup_zip_with.
  destruct (a !! y) as [ra|]; simpl; [|done].
  destruct (b !! y) as [rb|]; simpl.
  - by rewrite lookup_zip_with.
  - by destruct (ra !! x).
Qed.

Lemma get2_zip a b y x :
  Numpy.get2 (zip_with zip a b) y x =
    Numpy.get2 a y x ≫= λ u, Numpy.get2 b y x ≫= λ v, Some (u, v).
Proof. apply (get2_zip_with pair). Qed.

Lemma same_shape_get2 a b y x :
  Numpy.same_shape a b = true →
  is_Some (Numpy.get2 a y x) ↔ is_Some (Numpy.get2 b y x).
Proof.
  unfold Numpy.same_shape, Numpy.get2. intros H%bool_decide_eq_true.
  assert (fmap (M := option) length (a !! y)
          = fmap (M := option) length (b !! y)) as Hy.
  { rewrite <- !list_lookup_fmap. by rewrite H. }
  destruct (a !! y) as [ra|], (b !! y) as [rb|]; simplify_eq/=;
    rewrite ?is_Some_alt; try done.
  rewrite <- !is_Some_alt, !lookup_lt_is_Some. by rewrite Hy.
Qed.

End get2.

Lemma get2_assign_masked {A B} (f : B → A) (a : list (list A))
    (m : list (list bool)) (b : list (list B)) y x :
  Numpy.get2 (Numpy.assign_masked f a m b) y x =
    Numpy.get2 a y x ≫= λ t, Numpy.get2 m y x ≫= λ c : bool,
    Numpy.get2 b y x ≫= λ s, Some (if c then f s else t).
Proof.
  unfold Numpy.assign_masked.
  rewrite (get2_zip_with (λ t (p : bool * B), if p.1 then f p.2 else t)).
  destruct (Numpy.get2 a y x) as [t|]; simpl; [|done].
  rewrite get2_zip.
  destruct (Numpy.get2 m y x); simpl; [|done].
  by destruct (Numpy.get2 b y x).
Qed.

Lemma get2_gt (a : list (list Z)) t y x :
  Numpy.get2 (Numpy.gt a t) y x = Z.ltb t <$> Numpy.get2 a y x.
Proof. apply get2_fmap. Qed.

Lemma get2_assign_channel k v m (a : list (list (list Z))) y x :
  Numpy.get2 (Numpy.assign_channel k v m a) y x =
    Numpy.get2 a y x ≫= λ px, Numpy.get2 m y x ≫= λ c : bool,
    Some (if c then <[k := v]> px else px).
Proof.
  unfold Numpy.assign_channel. rewrite get2_assign_masked.
  destruct (Numpy.get2 a y x); simpl; [|done].
  by destruct (Numpy.get2 m y x).
Qed.

(** ** Mask dilation *)

Lemma grown_refl a : grown a a.
Proof. intros y x v H. by left. Qed.

Lemma grown_trans a b c : grown a b → grown b c → grown a c.
Proof.
  intros Hab Hbc y x v H.
  destruct (Hab y x v H) as [H1|H1]; destruct (Hbc _ _ _ H1); auto.
Qed.

Lemma grown_set2 a y x : grown a (Numpy.set2 a y x 255%Z).
Proof.
  intros y' x' v H. rewrite get2_set2.
  destruct (decide (y = y' ∧ x = x')) as [[-> ->]|]; [|by left].
  right. by rewrite H.
Qed.

Lemma grown_dilate_at result y dilated x :
  grown dilated (dilate_at result y dilated x).
Proof.
  unfold dilate_at.
  destruct (Numpy.any _); [apply grown_set2 | apply grown_refl].
Qed.

Lemma grown_foldl {X} (f : list (list Z) → X → list (list Z)) (l : list X) :
  (∀ d i, grown d (f d i)) → ∀ d, grown d (foldl f d l).
Proof.
  intros Hf. induction l as [|i l IH]; intros d; simpl.
  - apply grown_refl.
  - eapply grown_trans; [apply Hf | apply IH].
Qed.

Lemma grown_dilate_once result : grown result (dilate_once result).
Proof.
  unfold dilate_once. destruct (Numpy.shape result) as [h w].
  apply grown_foldl. intros d y.
  apply grown_foldl. intros d' x. apply grown_dilate_at.
Qed.

Lemma dilate_loop_S n mask :
  dilate_loop (S n) mask = dilate_once (dilate_loop n mask).
Proof.
  revert mask. induction n as [|n IH]; intros mask; [done|].
  change (dilate_loop (S (S n)) mask) with (dilate_loop (S n) (dilate_once mask)).
  by rewrite IH.
Qed.

Lemma dilate_mask_next mask k :
  grown (dilate_mask mask k) (dilate_mask mask (k + 1)).
Proof.
  unfold dilate_mask. destruct (Z_lt_le_dec k 0) as [Hk|Hk].
  - replace (Z.to_nat (k + 1)) with O by lia.
    replace (Z.to_nat k) with O by lia. apply grown_refl.
  - replace (Z.to_nat (k + 1)) with (S (Z.to_nat k)) by lia.
    rewrite dilate_loop_S. apply grown_dilate_once.
Qed.

Lemma grown_dilate_loop n mask : grown mask (dilate_loop n mask).
Proof.
  revert mask. induction n as [|n IH]; intros mask; simpl.
  - apply grown_refl.
  - eapply grown_trans; [apply grown_dilate_once | apply IH].
Qed.

(** One pass takes the eight neighbours of a member pixel into the mask; the
    outermost ring is never written, so the value 5 in the corner stays and
    a second pass adds nothing on this 5x5 mask. *)
Example dilate_mask_5x5 :
  dilate_mask
    [[0; 0; 0; 0; 0]; [0; 0; 0; 0; 0]; [0; 0; 200; 0; 0]; [0; 0; 0; 0; 0];
     [0; 0; 0; 0; 5]]%Z 1
  = [[0; 0; 0; 0; 0]; [0; 255; 255; 255; 0]; [0; 255; 255; 255; 0];
     [0; 255; 255; 255; 0]; [0; 0; 0; 0; 5]]%Z
  ∧ dilate_mask
      [[0; 0; 0; 0; 0]; [0; 0; 0; 0; 0]; [0; 0; 200; 0; 0]; [0; 0; 0; 0; 0];
       [0; 0; 0; 0; 5]]%Z 2
    = [[0; 0; 0; 0; 0]; [0; 255; 255; 255; 0]; [0; 255; 255; 255; 0];
       [0; 255; 255; 255; 0]; [0; 0; 0; 0; 5]]%Z.
Proof. split; reflexivity. Qed.

(** C6: dilation is monotone in the iteration count.  A pixel that is a
    member of the mask after [k] iterations, at any threshold below the
    member value 255 (4 for the dilation itself, 128 for the stages that
    read the mask), is a member after [k + 1] iterations. *)
Theorem dilate_mask_monotone (mask : list (list Z)) (k t : Z) (y x : nat) :
  (t < 255)%Z →
  member t (dilate_mask mask k) y x →
  member t (dilate_mask mask (k + 1)) y x.
Proof.
  intros Ht (v & Hv & Hlt).
  destruct (dilate_mask_next mask k y x v Hv) as [H|H].
  - by exists v.
  - by exists 255%Z.
Qed.

Lemma dilate_mask_monotone_witness :
  member 128 (dilate_mask [[0; 0; 0]; [0; 0; 0]; [0; 0; 255]]%Z 1) 1 1
  ∧ member 128 (dilate_mask [[0; 0; 0]; [0; 0; 0]; [0; 0; 255]]%Z (1 + 1)) 1 1.
Proof.
  assert (member 128 (dilate_mask [[0; 0; 0]; [0; 0; 0]; [0; 0; 255]]%Z 1) 1 1)
    as H.
  { exists 255%Z. split; [reflexivity | lia]. }
  split; [exact H|].
  apply (dilate_mask_monotone _ 1 128 1 1); [lia | exact H].
Defined.

(** ** Chroma key *)

Lemma uint8_channel k px : Forall uint8 px → uint8 (channel k px).
Proof.
  intros H. unfold channel.
  destruct (px !! k) as [v|] eqn:E; simpl.
  - by eapply Forall_lookup_1.
  - unfold uint8. simpl. lia.
Qed.

Lemma uint8_to_RGBA px : Forall uint8 px → Forall uint8 (to_RGBA px).
Proof.
  intros H. destruct px as [|r [|g [|b [|a px]]]]; simpl; try done.
  change (Forall uint8 ([r; g; b] ++ [255%Z])).
  apply Forall_app. split; [done|].
  apply Forall_singleton. unfold uint8. lia.
Qed.

Lemma uint8_get2 img y x px :
  uint8_image img → Numpy.get2 img y x = Some px → Forall uint8 px.
Proof.
  unfold uint8_image, Numpy.get2. intros H Hpx.
  destruct (img !! y) as [row|] eqn:E; simplify_eq/=.
  eapply Forall_lookup_1; [|done]. by eapply Forall_lookup_1.
Qed.

Lemma int16_uint8 z : uint8 z → Numpy.int16 z = z.
Proof.
  unfold uint8, Numpy.int16. intros H.
  rewrite Z.mod_small by lia. lia.
Qed.

Lemma add_int16_uint8 z : uint8 z → Numpy.add_int16 (Numpy.int16 z) 30 = (z + 30)%Z.
Proof.
  intros H. unfold Numpy.add_int16. rewrite (int16_uint8 z H).
  unfold uint8 in H. unfold Numpy.int16. rewrite Z.mod_small by lia. lia.
Qed.

Lemma green_mask_exact threshold px :
  Forall uint8 px →
  green_mask threshold false px =
    (threshold <? channel 1 px)%Z && (channel 0 px + 30 <? channel 1 px)%Z
      && (channel 2 px + 30 <? channel 1 px)%Z && (channel 0 px <? 100)%Z.
Proof.
  intros H. unfold green_mask.
  pose proof (uint8_channel 0 px H). pose proof (uint8_channel 1 px H).
  pose proof (uint8_channel 2 px H).
  by rewrite !add_int16_uint8, !int16_uint8.
Qed.

Lemma green_mask_aggressive_exact threshold px :
  Forall uint8 px →
  green_mask threshold true px =
    (100 <? channel 1 px)%Z && (channel 0 px <? channel 1 px)%Z
      && (channel 2 px <? channel 1 px)%Z.
Proof.
  intros H. unfold green_mask.
  pose proof (uint8_channel 0 px H). pose proof (uint8_channel 1 px H).
  pose proof (uint8_channel 2 px H).
  by rewrite !int16_uint8.
Qed.

Lemma get2_remove_green_screen img threshold aggressive y x :
  Numpy.get2 (remove_green_screen img threshold aggressive) y x =
    (λ p, let px := to_RGBA p in
          if green_mask threshold aggressive px then <[3 := 0%Z]> px else px)
      <$> Numpy.get2 img y x.
Proof.
  unfold remove_green_screen, convert_RGBA.
  rewrite get2_assign_channel, !get2_fmap.
  by destruct (Numpy.get2 img y x).
Qed.

Lemma channel_insert_ne k j v px : k ≠ j → channel j (<[k := v]> px) = channel j px.
Proof. intros H. unfold channel. by rewrite list_lookup_insert_ne. Qed.

Lemma channel_insert_0 k px : channel k (<[k := 0%Z]> px) = 0%Z.
Proof.
  unfold channel.
  destruct (decide (k < length px)) as [Hk|Hk].
  - by rewrite list_lookup_insert_eq.
  - rewrite list_insert_ge by lia. by rewrite lookup_ge_None_2 by lia.
Qed.

(** C3: the standard pass of [remove_green_screen] (threshold 100).  A pixel,
    read as RGBA, is rewritten to alpha 0 exactly when green > 100, green >
    red + 30, green > blue + 30 and red < 100; any other pixel comes out as
    it went in; the three colour channels never change; the background
    colour (22, 187, 0) always gets alpha 0. *)
Theorem remove_green_screen_standard (img : list (list (list Z)))
    (y x : nat) (p : list Z) :
  uint8_image img →
  Numpy.get2 img y x = Some p →
  let px := to_RGBA p in
  let r := channel 0 px in
  let g := channel 1 px in
  let b := channel 2 px in
  let background := (100 < g ∧ r + 30 < g ∧ b + 30 < g ∧ r < 100)%Z in
  ∃ out,
    Numpy.get2 (remove_green_screen img 100 false) y x = Some out
    ∧ (background → out = <[3 := 0%Z]> px)
    ∧ (¬ background → out = px)
    ∧ (channel 0 out = r ∧ channel 1 out = g ∧ channel 2 out = b)
    ∧ (channel 3 out = 0%Z ↔ background ∨ channel 3 px = 0%Z)
    ∧ (∀ a, p = [22; 187; 0]%Z ∨ p = [22; 187; 0; a]%Z →
            out = [22; 187; 0; 0]%Z).
Proof.
  intros Himg Hp px r g b background.
  assert (Forall uint8 px) as Hpx.
  { apply uint8_to_RGBA. by eapply uint8_get2. }
  assert (green_mask 100 false px = true ↔ background) as Hbg.
  { rewrite green_mask_exact by done. unfold background, r, g, b.
    rewrite !andb_true_iff, !Z.ltb_lt. tauto. }
  exists (if green_mask 100 false px then <[3 := 0%Z]> px else px).
  split; [by rewrite get2_remove_green_screen, Hp|].
  destruct (green_mask 100 false px) eqn:E.
  - assert background as Hb by by apply Hbg.
    split; [done|]. split; [tauto|].
    split; [by rewrite !channel_insert_ne by done|].
    split.
    + split; [by left | intros _; apply channel_insert_0].
    + intros a [->| ->]; reflexivity.
  - assert (¬ background) as Hb by (rewrite <- Hbg; congruence).
    split; [tauto|]. split; [done|]. split; [done|].
    split; [tauto|].
    intros a [->| ->]; exfalso; apply Hb; unfold background, r, g, b, px;
      simpl; unfold channel; simpl; lia.
Qed.

Ltac solve_uint8 :=
  repeat (first [apply Forall_nil_2 | apply Forall_cons_2]);
  unfold uint8; lia.

Lemma remove_green_screen_standard_witness :
  ∃ out,
    Numpy.get2
      (remove_green_screen [[[22; 187; 0]; [200; 150; 40; 255]]]%Z 100 false)
      0 0 = Some out
    ∧ out = [22; 187; 0; 0]%Z.
Proof.
  destruct (remove_green_screen_standard
              [[[22; 187; 0]; [200; 150; 40; 255]]]%Z 0 0 [22; 187; 0]%Z)
    as (out & Hout & _ & _ & _ & _ & Hbg).
  - solve_uint8.
  - reflexivity.
  - exists out. split; [exact Hout|]. apply (Hbg 0%Z). by left.
Defined.

(** C8: the aggressive test is looser than the standard one.  With the
    default threshold 100, the standard test is green > 100, green > red +
    30, green > blue + 30 and red < 100, the aggressive test is green > 100,
    green > red and green > blue, and every pixel that passes the standard
    test passes the aggressive one. *)
Theorem aggressive_is_looser (px : list Z) :
  Forall uint8 px →
  let r := channel 0 px in
  let g := channel 1 px in
  let b := channel 2 px in
  (green_mask 100 false px = true
     ↔ (100 < g ∧ r + 30 < g ∧ b + 30 < g ∧ r < 100)%Z)
  ∧ (green_mask 100 true px = true ↔ (100 < g ∧ r < g ∧ b < g)%Z)
  ∧ (green_mask 100 false px = true → green_mask 100 true px = true).
Proof.
  intros H r g b.
  rewrite green_mask_exact, green_mask_aggressive_exact by done.
  fold r g b. rewrite !andb_true_iff, !Z.ltb_lt.
  repeat split; try tauto; lia.
Qed.

Lemma aggressive_is_looser_witness :
  green_mask 100 false [22; 187; 0; 255]%Z = true
  ∧ green_mask 100 true [22; 187; 0; 255]%Z = true.
Proof.
  destruct (aggressive_is_looser [22; 187; 0; 255]%Z) as (_ & _ & H).
  - solve_uint8.
  - split; [reflexivity | apply H; reflexivity].
Defined.

(** The aggressive test is strictly looser: a yellow-green edge pixel passes
    it and fails the standard test. *)
Example aggressive_only :
  green_mask 100 false [150; 160; 40; 255]%Z = false
  ∧ green_mask 100 true [150; 160; 40; 255]%Z = true.
Proof. split; reflexivity. Qed.

(** C10: the comparisons of [remove_green_screen] never wrap.  On the
    channels widened to int16, green > red + 30 and green > blue + 30 are
    the comparisons of the integers themselves for every byte value of the
    channels, also for red or blue from 226 on, where the sum leaves the
    byte range; so the whole standard test is the exact one. *)
Theorem green_mask_no_overflow (threshold : Z) (px : list Z) :
  Forall uint8 px →
  let r := channel 0 px in
  let g := channel 1 px in
  let b := channel 2 px in
  (Numpy.add_int16 (Numpy.int16 r) 30 <? Numpy.int16 g)%Z = (r + 30 <? g)%Z
  ∧ (Numpy.add_int16 (Numpy.int16 b) 30 <? Numpy.int16 g)%Z = (b + 30 <? g)%Z
  ∧ green_mask threshold false px =
      (threshold <? g)%Z && (r + 30 <? g)%Z && (b + 30 <? g)%Z && (r <? 100)%Z.
Proof.
  intros H r g b.
  pose proof (uint8_channel 0 px H). pose proof (uint8_channel 1 px H).
  pose proof (uint8_channel 2 px H).
  unfold r, g, b. rewrite !add_int16_uint8, !int16_uint8 by done.
  repeat split. by apply green_mask_exact.
Qed.

(** At red = 230 the sum red + 30 = 260 does not fit a byte.  The widened
    comparison sees 260; on the bytes themselves the sum would be 4 and the
    comparison with green = 200 would come out the other way. *)
Lemma green_mask_no_overflow_witness :
  (Numpy.add_int16 (Numpy.int16 230) 30 <? Numpy.int16 200)%Z = false
  ∧ (Numpy.add_uint8 230 30 <? 200)%Z = true.
Proof.
  split; [|reflexivity].
  destruct (green_mask_no_overflow 100 [230; 200; 0; 255]%Z) as (H & _ & _).
  - solve_uint8.
  - exact H.
Defined.

(** ** Masked assignment as a pointwise map *)

Lemma zip_with_zip_self {A} (f : A → A) (ra : list A) (rm : list bool) :
  zip_with (λ t (p : bool * A), if p.1 then f p.2 else t) ra (zip rm ra)
  = zip_with (λ t (c : bool), if c then f t else t) ra rm.
Proof.
  revert rm. induction ra as [|u ra IH]; intros [|c rm]; simpl; try done.
  by rewrite IH.
Qed.

Lemma assign_channel_pointwise k v m (a : list (list (list Z))) :
  Numpy.assign_channel k v m a =
    zip_with (zip_with (λ px (c : bool), if c then <[k := v]> px else px)) a m.
Proof.
  unfold Numpy.assign_channel, Numpy.assign_masked.
  revert m. induction a as [|ra a IH]; intros [|rm m]; simpl; try done.
  rewrite IH. f_equal.
  apply (zip_with_zip_self (λ px, <[k := v]> px)).
Qed.

Lemma zip_with_zip_with_l {A B} (f g : A → B → A) (a : list (list A))
    (m : list (list B)) :
  zip_with (zip_with f) (zip_with (zip_with g) a m) m =
    zip_with (zip_with (λ u c, f (g u c) c)) a m.
Proof.
  revert m. induction a as [|ra a IH]; intros [|rm m]; simpl; try done.
  rewrite IH. f_equal. clear.
  revert rm. induction ra as [|u ra IH]; intros [|c rm]; simpl; try done.
  by rewrite IH.
Qed.

Lemma zip_with_zip_with_ext {A B C} (f g : A → B → C) (a : list (list A))
    (m : list (list B)) :
  (∀ u c, f u c = g u c) →
  zip_with (zip_with f) a m = zip_with (zip_with g) a m.
Proof.
  intros H. revert m. induction a as [|ra a IH]; intros [|rm m]; simpl; try done.
  rewrite IH. f_equal. clear -H.
  revert rm. induction ra as [|u ra IH]; intros [|c rm]; simpl; try done.
  by rewrite IH, H.
Qed.

Lemma same_shape_zip_with {A B C} (f : A → B → A) (a : list (list A))
    (m : list (list B)) (m' : list (list C)) :
  Numpy.same_shape a m = true →
  Numpy.same_shape (zip_with (zip_with f) a m) m' = Numpy.same_shape a m'.
Proof.
  unfold Numpy.same_shape. intros H%bool_decide_eq_true.
  assert (length <$> zip_with (zip_with f) a m = length <$> a) as ->; [|done].
  revert m H. induction a as [|ra a IH]; intros [|rm m] H; simplify_eq/=; try done.
  rewrite IH by done. f_equal. rewrite length_zip_with. lia.
Qed.

(** ** Outline overlay *)

(** The pixel function of [overlay_black_lines]: the three assignments in
    the order of the source. *)
Lemma overlay_black_lines_pointwise base_img line_mask out :
  overlay_black_lines base_img line_mask = Some out →
  Numpy.same_shape base_img (Numpy.gt line_mask 128) = true
  ∧ out =
      zip_with (zip_with (λ px (c : bool),
        if c then <[2 := 0%Z]> (<[1 := 0%Z]> (<[0 := 0%Z]> px)) else px))
        base_img (Numpy.gt line_mask 128).
Proof.
  unfold overlay_black_lines.
  destruct (Numpy.same_shape _ _) eqn:E; [|done].
  intros [= <-]. split; [done|].
  rewrite !assign_channel_pointwise, !zip_with_zip_with_l.
  apply zip_with_zip_with_ext. by intros px [].
Qed.

Lemma black_twice (px : list Z) :
  <[2 := 0%Z]> (<[1 := 0%Z]> (<[0 := 0%Z]>
    (<[2 := 0%Z]> (<[1 := 0%Z]> (<[0 := 0%Z]> px)))))
  = <[2 := 0%Z]> (<[1 := 0%Z]> (<[0 := 0%Z]> px)).
Proof. by destruct px as [|r [|g [|b px]]]. Qed.

Lemma black_channels (px : list Z) :
  let px' := <[2 := 0%Z]> (<[1 := 0%Z]> (<[0 := 0%Z]> px)) in
  channel 0 px' = 0%Z ∧ channel 1 px' = 0%Z ∧ channel 2 px' = 0%Z
  ∧ drop 3 px' = drop 3 px.
Proof. by destruct px as [|r [|g [|b px]]]. Qed.

(** C9: the outline overlay is idempotent.  An image that
    [overlay_black_lines] returned for a mask is returned unchanged when
    the overlay is applied to it with the same mask again.  The returned
    image has red, green and blue 0 wherever the mask is above 128, keeps
    every other pixel, and keeps the alpha channel (every channel after the
    third) of every pixel. *)
Theorem overlay_black_lines_idempotent (base_img : list (list (list Z)))
    (line_mask : list (list Z)) (out : list (list (list Z))) :
  overlay_black_lines base_img line_mask = Some out →
  overlay_black_lines out line_mask = Some out
  ∧ ∀ y x px, Numpy.get2 base_img y x = Some px →
      ∃ v px', Numpy.get2 line_mask y x = Some v
        ∧ Numpy.get2 out y x = Some px'
        ∧ drop 3 px' = drop 3 px
        ∧ ((128 < v)%Z →
             channel 0 px' = 0%Z ∧ channel 1 px' = 0%Z ∧ channel 2 px' = 0%Z)
        ∧ ((v ≤ 128)%Z → px' = px).
Proof.
  intros H. pose proof (overlay_black_lines_pointwise _ _ _ H) as [Hs Hout].
  split.
  - unfold overlay_black_lines. fold (Numpy.gt line_mask 128).
    rewrite Hout at 1. rewrite same_shape_zip_with, Hs by done.
    f_equal. rewrite !assign_channel_pointwise, !zip_with_zip_with_l.
    rewrite Hout at 1. rewrite zip_with_zip_with_l. rewrite Hout.
    apply zip_with_zip_with_ext. intros px []; [apply black_twice | done].
  - intros y x px Hpx.
    destruct (proj1 (same_shape_get2 _ _ y x Hs)) as [c Hc]; [by eexists|].
    rewrite get2_gt in Hc.
    destruct (Numpy.get2 line_mask y x) as [v|] eqn:Hv; simplify_eq/=.
    exists v. eexists. split; [done|].
    rewrite get2_zip_with, Hpx, get2_gt, Hv. simpl.
    split; [reflexivity|].
    pose proof (black_channels px) as (H0 & H1 & H2 & H3).
    destruct (128 <? v)%Z eqn:E.
    + apply Z.ltb_lt in E. split; [done|]. split; [done|]. lia.
    + apply Z.ltb_ge in E. split; [done|]. split; [lia|done].
Qed.

Lemma overlay_black_lines_idempotent_witness :
  overlay_black_lines [[[0; 0; 0; 255]; [200; 150; 40; 7]]]%Z [[255; 0]]%Z
    = Some [[[0; 0; 0; 255]; [200; 150; 40; 7]]]%Z.
Proof.
  apply (overlay_black_lines_idempotent
           [[[10; 20; 30; 255]; [200; 150; 40; 7]]]%Z [[255; 0]]%Z).
  reflexivity.
Defined.

(** ** Shading map *)

Lemma fmap_length_fmap {A B} (f : A → B) (a : list (list A)) :
  length <$> (fmap (M := list) f <$> a) = length <$> a.
Proof.
  rewrite <- list_fmap_compose. apply list_fmap_ext.
  intros i row _. simpl. apply length_fmap.
Qed.

Lemma same_shape_fmap {A B C D} (f : A → C) (g : B → D)
    (a : list (list A)) (b : list (list B)) :
  Numpy.same_shape (fmap (M := list) f <$> a) (fmap (M := list) g <$> b)
  = Numpy.same_shape a b.
Proof.
  unfold Numpy.same_shape. by rewrite !fmap_length_fmap.
Qed.

Lemma any_get2 (m : list (list bool)) :
  Numpy.any m = true ↔ ∃ y x, Numpy.get2 m y x = Some true.
Proof.
  unfold Numpy.any, Numpy.get2. rewrite existsb_exists. split.
  - intros (row & Hrow & Hex). apply existsb_exists in Hex as (c & Hc & Hid).
    apply list_elem_of_In, list_elem_of_lookup in Hrow as [y Hy].
    apply list_elem_of_In, list_elem_of_lookup in Hc as [x Hx].
    exists y, x. rewrite Hy. simpl. rewrite Hx. by f_equal.
  - intros (y & x & H). destruct (m !! y) as [row|] eqn:Hy; simplify_eq/=.
    exists row. split.
    + by eapply list_elem_of_In, list_elem_of_lookup_2.
    + apply existsb_exists. exists true. split; [|done].
      by eapply list_elem_of_In, list_elem_of_lookup_2.
Qed.

Lemma elem_of_select {A} (a : list (list A)) (m : list (list bool)) (e : A) :
  e ∈ Numpy.select a m ↔
    ∃ y x, Numpy.get2 a y x = Some e ∧ Numpy.get2 m y x = Some true.
Proof.
  unfold Numpy.select, Numpy.get2.
  rewrite list_elem_of_In, in_concat. split.
  - intros (l & Hl & He).
    apply list_elem_of_In, elem_of_lookup_zip_with in Hl
      as (y & ra & rm & -> & Hra & Hrm).
    apply list_elem_of_In, list_elem_of_omap in He as ([u c] & Hin & Hsel).
    apply list_elem_of_lookup in Hin as [x Hx].
    apply lookup_zip_with_Some in Hx as (u' & c' & ? & Hu & Hc).
    simplify_eq/=. destruct c'; simplify_eq/=.
    exists y, x. by rewrite Hra, Hrm.
  - intros (y & x & Ha & Hm).
    destruct (a !! y) as [ra|] eqn:Hra; simplify_eq/=.
    destruct (m !! y) as [rm|] eqn:Hrm; simplify_eq/=.
    eexists. split.
    + apply list_elem_of_In. eapply elem_of_lookup_zip_with.
      exists y, ra, rm. by split.
    + apply list_elem_of_In, list_elem_of_omap. exists (e, true). split; [|done].
      apply list_elem_of_lookup. exists x. apply lookup_zip_with_Some.
      by exists e, true.
Qed.

Lemma select_luminance base_img mask (l : Q) :
  l ∈ Numpy.select (fmap (M := list) luminance <$> base_img) (Numpy.gt mask 128)
  ↔ masked_luminance base_img mask l.
Proof.
  rewrite elem_of_select. unfold masked_luminance.
  setoid_rewrite get2_fmap. split.
  - intros (y & x & Hl & Hm).
    destruct (Numpy.get2 base_img y x) as [px|] eqn:Hpx; simplify_eq/=.
    destruct (Numpy.get2 mask y x) as [v|] eqn:Hv; simplify_eq/=.
    exists y, x, px, v. repeat split; try done. by apply Z.ltb_lt.
  - intros (y & x & px & v & Hpx & Hv & Hlt & ->).
    exists y, x. rewrite Hpx, Hv. simpl. split; [done|].
    f_equal. by apply Z.ltb_lt.
Qed.

Lemma Qmax_cases (a b : Q) : Qmax a b = a ∨ Qmax a b = b.
Proof.
  unfold Qmax, GenericMinMax.gmax. destruct (a ?= b)%Q; auto.
Qed.

Lemma Qmin_cases (a b : Q) : Qmin a b = a ∨ Qmin a b = b.
Proof.
  unfold Qmin, GenericMinMax.gmin. destruct (a ?= b)%Q; auto.
Qed.

Lemma np_max_spec (l : list Q) :
  l ≠ [] → Numpy.max l ∈ l ∧ ∀ e, e ∈ l → (e <= Numpy.max l)%Q.
Proof.
  destruct l as [|x t]; [done|]. intros _. simpl.
  revert x. induction t as [|u t IH]; intros x; simpl.
  - split; [apply list_elem_of_here|].
    intros e ->%list_elem_of_singleton. apply Qle_refl.
  - destruct (IH (Qmax x u)) as [Hin Hle]. split.
    + apply elem_of_cons in Hin as [Hin|Hin].
      * rewrite Hin. destruct (Qmax_cases x u) as [-> | ->].
        -- apply list_elem_of_here.
        -- apply list_elem_of_further, list_elem_of_here.
      * by do 2 apply list_elem_of_further.
    + intros e He. apply elem_of_cons in He as [->|He].
      * eapply Qle_trans; [apply Q.le_max_l|]. apply Hle, list_elem_of_here.
      * apply elem_of_cons in He as [->|He].
        -- eapply Qle_trans; [apply Q.le_max_r|]. apply Hle, list_elem_of_here.
        -- by apply Hle, list_elem_of_further.
Qed.

Lemma np_min_spec (l : list Q) :
  l ≠ [] → Numpy.min l ∈ l ∧ ∀ e, e ∈ l → (Numpy.min l <= e)%Q.
Proof.
  destruct l as [|x t]; [done|]. intros _. simpl.
  revert x. induction t as [|u t IH]; intros x; simpl.
  - split; [apply list_elem_of_here|].
    intros e ->%list_elem_of_singleton. apply Qle_refl.
  - destruct (IH (Qmin x u)) as [Hin Hle]. split.
    + apply elem_of_cons in Hin as [Hin|Hin].
      * rewrite Hin. destruct (Qmin_cases x u) as [-> | ->].
        -- apply list_elem_of_here.
        -- apply list_elem_of_further, list_elem_of_here.
      * by do 2 apply list_elem_of_further.
    + intros e He. apply elem_of_cons in He as [->|He].
      * eapply Qle_trans; [|apply Q.le_min_l]. apply Hle, list_elem_of_here.
      * apply elem_of_cons in He as [->|He].
        -- eapply Qle_trans; [|apply Q.le_min_r]. apply Hle, list_elem_of_here.
        -- by apply Hle, list_elem_of_further.
Qed.

(** The shading map of a mask with a member pixel, position by position:
    the normalised and clamped luminance (or 1.0 when all masked luminances
    are the same) inside the mask, the 0 of [np.zeros_like] outside. *)
Lemma get2_extract_shading_map base_img mask shading y x :
  Numpy.any (Numpy.gt mask 128) = true →
  extract_shading_map base_img mask = Some shading →
  let lums :=
    Numpy.select (fmap (M := list) luminance <$> base_img) (Numpy.gt mask 128) in
  Numpy.get2 shading y x =
    Numpy.get2 base_img y x ≫= λ px, Numpy.get2 mask y x ≫= λ v,
    Some (if (128 <? v)%Z then
            if Qlt_le_dec (Numpy.min lums) (Numpy.max lums) then
              Numpy.clip
                (Float32.div (Float32.sub (luminance px) (Numpy.min lums))
                   (Float32.sub (Numpy.max lums) (Numpy.min lums)))
                Float32.f0_4 1.0
            else 1.0%Q
          else 0%Q).
Proof.
  intros Hany. unfold extract_shading_map. rewrite Hany.
  destruct (Numpy.same_shape _ _); [|done]. intros H.
  destruct (Qlt_le_dec _ _); simplify_eq/=;
    rewrite !get2_assign_masked; unfold Numpy.zeros_like;
    rewrite ?get2_assign_masked, !get2_fmap, get2_gt;
    destruct (Numpy.get2 base_img y x) as [px|]; simpl; try done;
    destruct (Numpy.get2 mask y x) as [v|]; simpl; try done;
    by destruct (128 <? v)%Z.
Qed.

Lemma extract_shading_map_total base_img mask :
  Numpy.same_shape base_img mask = true →
  is_Some (extract_shading_map base_img mask).
Proof.
  intros H. unfold extract_shading_map, Numpy.gt.
  rewrite same_shape_fmap, H.
  destruct (Numpy.any _); [|by eexists].
  destruct (Qlt_le_dec _ _); by eexists.
Qed.

Lemma extremes_of_mask base_img mask :
  Numpy.same_shape base_img mask = true →
  Numpy.any (Numpy.gt mask 128) = true →
  let lums :=
    Numpy.select (fmap (M := list) luminance <$> base_img) (Numpy.gt mask 128) in
  max_luminance_of base_img mask (Numpy.max lums)
  ∧ min_luminance_of base_img mask (Numpy.min lums).
Proof.
  intros Hs Hany lums.
  assert (lums ≠ []) as Hne.
  { apply any_get2 in Hany as (y & x & Hm). rewrite get2_gt in Hm.
    destruct (Numpy.get2 mask y x) as [v|] eqn:Hv; simplify_eq/=.
    destruct (proj2 (same_shape_get2 _ _ y x Hs)) as [px Hpx]; [by eexists|].
    assert (luminance px ∈ lums) as Hin.
    { apply select_luminance. exists y, x, px, v.
      repeat split; try done. by apply Z.ltb_lt. }
    intros E. rewrite E in Hin. by apply not_elem_of_nil in Hin. }
  destruct (np_max_spec lums Hne) as [Hmax Hmax_le].
  destruct (np_min_spec lums Hne) as [Hmin Hmin_le].
  unfold max_luminance_of, min_luminance_of.
  rewrite <- !select_luminance. fold lums.
  repeat split; try done.
  - intros l Hl. by apply Hmax_le, select_luminance.
  - intros l Hl. by apply Hmin_le, select_luminance.
Qed.

(** The float literals, spelled out. *)
Lemma float_literals :
  Float32.of_float 0.299 = Float32.f0_299
  ∧ Float32.of_float 0.587 = Float32.f0_587
  ∧ Float32.of_float 0.114 = Float32.f0_114
  ∧ Float32.of_float 0.4 = Float32.f0_4
  ∧ Float32.of_float 0.6 = Float32.f0_6.
Proof. repeat split; vm_compute; reflexivity. Qed.

Lemma luminance_literals (px : list Z) :
  Float32.add
    (Float32.add
       (Float32.mul (Float32.of_float 0.299) (inject_Z (channel 0 px)))
       (Float32.mul (Float32.of_float 0.587) (inject_Z (channel 1 px))))
    (Float32.mul (Float32.of_float 0.114) (inject_Z (channel 2 px)))
  = luminance px.
Proof.
  destruct float_literals as (-> & -> & -> & _). reflexivity.
Qed.

(** C7: normalisation of the shading map, in the float32 arithmetic of the
    code.  [lum] is the luminance 0.299 R + 0.587 G + 0.114 B of a pixel,
    three float32 products added from the left.  For a mask that fits the
    image and has a member pixel, [extract_shading_map] returns a map; with
    [max_l] and [min_l] the largest and the smallest [lum] over the masked
    pixels, every masked pixel of the map is 1.0 when [max_l] and [min_l]
    are equal, and otherwise (lum - min_l) / (max_l - min_l), the
    difference and the quotient rounded to float32, clamped between the
    float32 number 0.4 and 1.0. *)
Theorem extract_shading_map_normalized (base_img : list (list (list Z)))
    (mask : list (list Z)) :
  Numpy.same_shape base_img mask = true →
  Numpy.any (Numpy.gt mask 128) = true →
  let lum (px : list Z) : Q :=
    Float32.add
      (Float32.add
         (Float32.mul (Float32.of_float 0.299) (inject_Z (channel 0 px)))
         (Float32.mul (Float32.of_float 0.587) (inject_Z (channel 1 px))))
      (Float32.mul (Float32.of_float 0.114) (inject_Z (channel 2 px))) in
  let masked (y x : nat) (px : list Z) : Prop :=
    ∃ v, Numpy.get2 base_img y x = Some px
      ∧ Numpy.get2 mask y x = Some v ∧ (128 < v)%Z in
  ∃ shading max_l min_l,
    extract_shading_map base_img mask = Some shading
    ∧ (∃ y x px, masked y x px ∧ max_l = lum px)
    ∧ (∀ y x px, masked y x px → (lum px <= max_l)%Q)
    ∧ (∃ y x px, masked y x px ∧ min_l = lum px)
    ∧ (∀ y x px, masked y x px → (min_l <= lum px)%Q)
    ∧ ∀ y x px, masked y x px →
        ∃ s, Numpy.get2 shading y x = Some s
          ∧ (max_l == min_l → s == 1)
          ∧ (¬ max_l == min_l →
             s == Numpy.clip
                    (Float32.div (Float32.sub (lum px) min_l)
                                 (Float32.sub max_l min_l))
                    (Float32.of_float 0.4) 1.0).
Proof.
  intros Hs Hany lum masked.
  assert (∀ px, lum px = luminance px) as Hlum
    by apply luminance_literals.
  assert (Float32.of_float 0.4 = Float32.f0_4) as -> by apply float_literals.
  clearbody lum.
  destruct (extract_shading_map_total _ _ Hs) as [shading Hsh].
  pose proof (extremes_of_mask _ _ Hs Hany) as [[Hmax Hmax_le] [Hmin Hmin_le]].
  cbv zeta in Hmax, Hmax_le, Hmin, Hmin_le.
  set (lums := Numpy.select (fmap (M := list) luminance <$> base_img)
                 (Numpy.gt mask 128)) in *.
  exists shading, (Numpy.max lums), (Numpy.min lums).
  split; [exact Hsh|]. split.
  { destruct Hmax as (y & x & px & v & Hpx & Hv & Hlt & E).
    exists y, x, px. split; [by exists v|]. by rewrite Hlum. }
  split.
  { intros y x px (v & Hpx & Hv & Hlt). rewrite Hlum.
    apply Hmax_le. by exists y, x, px, v. }
  split.
  { destruct Hmin as (y & x & px & v & Hpx & Hv & Hlt & E).
    exists y, x, px. split; [by exists v|]. by rewrite Hlum. }
  split.
  { intros y x px (v & Hpx & Hv & Hlt). rewrite Hlum.
    apply Hmin_le. by exists y, x, px, v. }
  intros y x px (v & Hpx & Hv & Hlt).
  rewrite (get2_extract_shading_map _ _ _ y x Hany Hsh), Hpx, Hv.
  cbn [mbind option_bind]. fold lums.
  apply Z.ltb_lt in Hlt. rewrite Hlt.
  eexists. split; [reflexivity|].
  destruct (Qlt_le_dec _ _) as [Hlt'|Hle].
  - split.
    + intros E. rewrite E in Hlt'. by apply Qlt_irrefl in Hlt'.
    + intros _. rewrite Hlum. reflexivity.
  - split; [intros _; reflexivity|].
    intros Hne. exfalso. apply Hne. apply Qle_antisym; [exact Hle|].
    apply Hmin_le, Hmax.
Qed.

(** Three fill pixels.  The luminances of the first two are the same real
    number, 156.858, and differ in float32; the third is the darkest.  The
    shading values are 64/65 rounded to float32, 1.0, and the float32
    number 0.4. *)
Lemma extract_shading_map_normalized_witness :
  ∃ shading s0 s1 s2,
    extract_shading_map
      [[[255; 135; 12]; [181; 149; 134]; [0; 241; 135]]]%Z
      [[255; 255; 255]]%Z = Some shading
    ∧ Numpy.get2 shading 0 0 = Some s0 ∧ s0 == 16519105 # 16777216
    ∧ Numpy.get2 shading 0 1 = Some s1 ∧ s1 == 1
    ∧ Numpy.get2 shading 0 2 = Some s2 ∧ s2 == 13421773 # 33554432.
Proof.
  destruct (extract_shading_map_normalized
              [[[255; 135; 12]; [181; 149; 134]; [0; 241; 135]]]%Z
              [[255; 255; 255]]%Z eq_refl eq_refl)
    as (shading & max_l & min_l & Hsh & Hmax & Hmax_le & Hmin & Hmin_le & Hpix).
  assert (∀ x px,
    Numpy.get2 [[[255; 135; 12]; [181; 149; 134]; [0; 241; 135]]]%Z 0 x
      = Some px →
    ∃ v, Numpy.get2 [[[255; 135; 12]; [181; 149; 134]; [0; 241; 135]]]%Z 0 x
           = Some px
         ∧ Numpy.get2 [[255; 255; 255]]%Z 0 x = Some v ∧ (128 < v)%Z) as M.
  { intros x px Hpx. exists 255%Z. split; [exact Hpx|].
    destruct x as [|[|[|x]]]; [by split..|discriminate Hpx]. }
  pose proof (Hmax_le 0 1 _ (M 1 _ eq_refl)) as Hle1.
  pose proof (Hmin_le 0 2 _ (M 2 _ eq_refl)) as Hge2.
  assert (max_l = 5139923 # 32768) as ->.
  { destruct Hmax as (y & x & px & (v & Hpx & _) & ->).
    destruct y as [|y]; [|vm_compute in Hpx; discriminate Hpx].
    destruct x as [|[|[|x]]]; vm_compute in Hpx; [..|discriminate Hpx];
      injection Hpx as <-; try (vm_compute; reflexivity);
      vm_compute in Hle1; exfalso; exact (Hle1 eq_refl). }
  assert (min_l = 10279781 # 65536) as ->.
  { destruct Hmin as (y & x & px & (v & Hpx & _) & ->).
    destruct y as [|y]; [|vm_compute in Hpx; discriminate Hpx].
    destruct x as [|[|[|x]]]; vm_compute in Hpx; [..|discriminate Hpx];
      injection Hpx as <-; try (vm_compute; reflexivity);
      vm_compute in Hge2; exfalso; exact (Hge2 eq_refl). }
  destruct (Hpix 0 0 _ (M 0 _ eq_refl)) as (s0 & Hs0 & _ & E0).
  destruct (Hpix 0 1 _ (M 1 _ eq_refl)) as (s1 & Hs1 & _ & E1).
  destruct (Hpix 0 2 _ (M 2 _ eq_refl)) as (s2 & Hs2 & _ & E2).
  exists shading, s0, s1, s2. split; [exact Hsh|].
  split; [exact Hs0|]. split.
  { rewrite E0 by (vm_compute; discriminate). vm_compute. reflexivity. }
  split; [exact Hs1|]. split.
  { rewrite E1 by (vm_compute; discriminate). vm_compute. reflexivity. }
  split; [exact Hs2|].
  rewrite E2 by (vm_compute; discriminate). vm_compute. reflexivity.
Defined.

(** The first two of these pixels: 0.299 R + 0.587 G + 0.114 B is the same
    real number for both, and the float32 luminances are one unit in the
    last place apart. *)
Example luminance_tie_in_reals :
  (0.299 * 255 + 0.587 * 135 + 0.114 * 12
   == 0.299 * 181 + 0.587 * 149 + 0.114 * 134)%Q
  ∧ luminance [255; 135; 12]%Z == (10279845 # 65536)%Q
  ∧ luminance [181; 149; 134]%Z == (10279846 # 65536)%Q.
Proof. repeat split; vm_compute; reflexivity. Qed.

(** A fill region of one colour: the masked luminances are all the same and
    the masked pixels of the map are 1.0. *)
Example extract_shading_map_single_color :
  extract_shading_map [[[230; 170; 50]; [230; 170; 50]; [22; 187; 0]]]%Z
    [[255; 255; 0]]%Z = Some [[1.0; 1.0; 0]]%Q.
Proof. reflexivity. Qed.

(** The float32 number 0.4 is a little above the real number. *)
Lemma f0_4_above : (0.4 < Float32.f0_4)%Q ∧ (Float32.f0_4 < 1)%Q.
Proof. split; reflexivity. Qed.

Lemma clip_range (x : Q) :
  (Float32.f0_4 <= Numpy.clip x Float32.f0_4 1.0)%Q
  ∧ (Numpy.clip x Float32.f0_4 1.0 <= 1.0)%Q.
Proof.
  unfold Numpy.clip. split.
  - apply Q.min_glb; [apply Q.le_max_r|]. vm_compute. discriminate.
  - apply Q.le_min_r.
Qed.

(** Inside the mask the shading map stays within [0.4, 1.0]. *)
Lemma extract_shading_map_masked_range base_img mask shading y x px v :
  Numpy.any (Numpy.gt mask 128) = true →
  extract_shading_map base_img mask = Some shading →
  Numpy.get2 base_img y x = Some px →
  Numpy.get2 mask y x = Some v →
  (128 < v)%Z →
  ∃ s, Numpy.get2 shading y x = Some s ∧ (0.4 <= s)%Q ∧ (s <= 1.0)%Q.
Proof.
  intros Hany Hsh Hpx Hv Hlt.
  rewrite (get2_extract_shading_map _ _ _ y x Hany Hsh), Hpx, Hv. simpl.
  apply Z.ltb_lt in Hlt. rewrite Hlt.
  eexists. split; [reflexivity|].
  destruct (Qlt_le_dec _ _); [|split; unfold Qle; simpl; lia].
  match goal with |- context [Numpy.clip ?q _ _] =>
    destruct (clip_range q) as [Hlo Hhi] end.
  split; [|exact Hhi].
  eapply Qle_trans; [|exact Hlo]. apply Qlt_le_weak, f0_4_above.
Qed.

(** Without a member pixel the map is 1.0 everywhere. *)
Lemma extract_shading_map_empty_mask base_img mask :
  Numpy.any (Numpy.gt mask 128) = false →
  extract_shading_map base_img mask
  = Some (Numpy.ones_like (fmap (M := list) luminance <$> base_img)).
Proof. intros H. unfold extract_shading_map. by rewrite H. Qed.

(** Outside a mask that has a member pixel the map keeps the 0 of
    [np.zeros_like]. *)
Lemma extract_shading_map_unmasked base_img mask shading y x px v :
  Numpy.any (Numpy.gt mask 128) = true →
  extract_shading_map base_img mask = Some shading →
  Numpy.get2 base_img y x = Some px →
  Numpy.get2 mask y x = Some v →
  (v ≤ 128)%Z →
  Numpy.get2 shading y x = Some 0%Q.
Proof.
  intros Hany Hsh Hpx Hv Hle.
  rewrite (get2_extract_shading_map _ _ _ y x Hany Hsh), Hpx, Hv. simpl.
  apply Z.ltb_ge in Hle. by rewrite Hle.
Qed.

(** C1: a frame of one fill pixel and one background pixel, with the mask
    on the fill pixel.  The shading map is 1.0 on the fill pixel and 0 on
    the background pixel: outside a non-empty mask the map is not 1.0. *)
Theorem extract_shading_map_outside_mask :
  extract_shading_map [[[230; 170; 50]; [22; 187; 0]]]%Z [[255; 0]]%Z
    = Some [[1.0; 0]]%Q
  ∧ ¬ (0 == 1.0)%Q.
Proof. split; [reflexivity | discriminate]. Qed.

(** ** Stored shading maps *)

(** C2: the stored byte of a shading value.  The two ends of the range are
    stored as 102 and 255, but in between the byte is not the linear
    interpolation between them: the shading value 0.8 is stored as 169,
    where the interpolation gives 204, and every value up to 0.64 is stored
    as 102. *)
Theorem convert_shading_to_uint8_not_linear :
  convert_shading_to_uint8 [[0.4; 1.0]]%Q = [[102; 255]]%Z
  ∧ convert_shading_to_uint8 [[0.8]]%Q = [[169]]%Z
  ∧ (linear_102_255 0.4 == 102 ∧ linear_102_255 1.0 == 255
     ∧ linear_102_255 0.8 == 204)%Q
  ∧ convert_shading_to_uint8 [[0.5; 0.6; 0.64]]%Q = [[102; 102; 102]]%Z.
Proof. repeat split; vm_compute; reflexivity. Qed.

(** The float32 number nearest to 0.8 is stored as 169 too; in real numbers
    (0.8 - 0.4) / 0.6 * 255 is 170. *)
Example convert_shading_to_uint8_float32 :
  convert_shading_to_uint8 [[Float32.of_float 0.8]] = [[169]]%Z
  ∧ (Qfloor ((0.8 - 0.4) / 0.6 * 255) = 170)%Z.
Proof. split; vm_compute; reflexivity. Qed.

(** The 0 that [extract_shading_map] leaves outside the mask is stored as
    102, not as the 255 of a shading value 1.0. *)
Example convert_shading_to_uint8_outside_mask :
  convert_shading_to_uint8 [[1.0; 0]]%Q = [[255; 102]]%Z.
Proof. reflexivity. Qed.

(** ** Texture compositing *)

Lemma get2_shade_channel k result mask_bool texture_array shading_map y x :
  Numpy.get2 (shade_channel k result mask_bool texture_array shading_map) y x =
    Numpy.get2 result y x ≫= λ px, Numpy.get2 mask_bool y x ≫= λ c : bool,
    Numpy.get2 texture_array y x ≫= λ t, Numpy.get2 shading_map y x ≫= λ s,
    Some (if c
          then <[k := Numpy.astype_uint8
                        (Float32.mul (Float32.of_int (channel k t)) s)]> px
          else px).
Proof.
  unfold shade_channel, Numpy.assign_channel_from.
  rewrite (get2_zip_with
             (λ px (p : bool * Z), if p.1 then <[k := p.2]> px else px)).
  rewrite get2_zip, get2_zip_with.
  destruct (Numpy.get2 result y x); simpl; [|done].
  destruct (Numpy.get2 mask_bool y x); simpl; [|done].
  destruct (Numpy.get2 texture_array y x); simpl; [|done].
  by destruct (Numpy.get2 shading_map y x).
Qed.

Lemma same_shape_get2_Some {A B} (a : list (list A)) (b : list (list B)) y x u :
  Numpy.same_shape a b = true →
  Numpy.get2 a y x = Some u → ∃ v, Numpy.get2 b y x = Some v.
Proof.
  intros Hs Hu. apply (same_shape_get2 a b y x Hs). by eexists.
Qed.

Lemma same_shape_sym {A B} (a : list (list A)) (b : list (list B)) :
  Numpy.same_shape a b = Numpy.same_shape b a.
Proof.
  unfold Numpy.same_shape. apply bool_decide_ext. split; congruence.
Qed.

Section Compositing.

Variable resize :
  list (list (list Z)) → nat * nat → list (list (list Z)).

(** C4: texture compositing keeps the alpha channel and the pixels
    outside the mask.  In the image that [apply_texture_to_mask] returns,
    every pixel has the alpha value (channel 3) it has in the base image,
    and a pixel whose mask value is at most 128 is the pixel of the base
    image, all channels alike. *)
Theorem apply_texture_to_mask_preserves
    (base_img texture_img : list (list (list Z))) (mask : list (list Z))
    (original_img : option (list (list (list Z))))
    (out : list (list (list Z))) :
  apply_texture_to_mask resize base_img texture_img mask original_img
    = Some out →
  ∀ y x px, Numpy.get2 base_img y x = Some px →
    ∃ v px', Numpy.get2 mask y x = Some v
      ∧ Numpy.get2 out y x = Some px'
      ∧ px' !! 3 = px !! 3
      ∧ ((v ≤ 128)%Z → px' = px).
Proof.
  unfold apply_texture_to_mask.
  destruct (extract_shading_map _ mask) as [shading_map|]; simpl; [|done].
  destruct (Numpy.same_shape base_img _ && _ && _) eqn:E; [|done].
  apply andb_true_iff in E as [E Hsh]. apply andb_true_iff in E as [Hb Ht].
  intros [= <-] y x px Hpx.
  destruct (same_shape_get2_Some _ _ y x px Hb Hpx) as [c Hc].
  rewrite same_shape_sym in Ht. rewrite same_shape_sym in Hsh.
  destruct (same_shape_get2_Some _ _ y x c Ht Hc) as [t Htex].
  destruct (same_shape_get2_Some _ _ y x c Hsh Hc) as [s Hs].
  pose proof Hc as Hv. rewrite get2_gt in Hv.
  destruct (Numpy.get2 mask y x) as [v|]; simplify_eq/=.
  exists v. eexists. split; [done|].
  rewrite !get2_shade_channel, Hpx, Hc, Htex, Hs. simpl.
  split; [reflexivity|].
  destruct (128 <? v)%Z eqn:Ev.
  - split; [by rewrite !list_lookup_insert_ne by done|].
    apply Z.ltb_lt in Ev. lia.
  - by split.
Qed.

End Compositing.

(** A red texture on a frame of one fill pixel and one transparent
    background pixel: the background pixel comes out as it went in. *)
Lemma apply_texture_to_mask_preserves_witness :
  apply_texture_to_mask (λ img _, img)
    [[[230; 170; 50; 255]; [22; 187; 0; 0]]]%Z
    [[[255; 0; 0]; [255; 0; 0]]]%Z [[255; 0]]%Z None
    = Some [[[255; 0; 0; 255]; [22; 187; 0; 0]]]%Z
  ∧ ∃ px', Numpy.get2 [[[255; 0; 0; 255]; [22; 187; 0; 0]]]%Z 0 1 = Some px'
      ∧ px' = [22; 187; 0; 0]%Z.
Proof.
  split; [reflexivity|].
  destruct (apply_texture_to_mask_preserves (λ img _, img)
              [[[230; 170; 50; 255]; [22; 187; 0; 0]]]%Z
              [[[255; 0; 0]; [255; 0; 0]]]%Z [[255; 0]]%Z None
              [[[255; 0; 0; 255]; [22; 187; 0; 0]]]%Z
              eq_refl 0 1 [22; 187; 0; 0]%Z eq_refl)
    as (v & px' & Hv & Hout & _ & Hsame).
  exists px'. split; [exact Hout|].
  apply Hsame. simpl in Hv. injection Hv as <-. lia.
Defined.

(** ** The pipeline without a texture *)

Lemma channel_to_RGBA k p : k < 3 → channel k (to_RGBA p) = channel k p.
Proof.
  intros Hk. destruct p as [|r [|g [|b [|a p]]]]; try done.
  by destruct k as [|[|[|k]]]; [..|lia].
Qed.

Lemma yellow_not_black p : is_yellow p = true → is_black p = false.
Proof.
  unfold is_yellow, is_black. intros H.
  rewrite !andb_true_iff, !Z.ltb_lt in H.
  apply andb_false_iff. left. apply andb_false_iff. left.
  apply Z.ltb_ge. lia.
Qed.

Lemma member_extract_black_lines frame y x p :
  Numpy.get2 frame y x = Some p →
  member 128 (extract_black_lines frame) y x ↔ is_black p = true.
Proof.
  intros Hp. unfold member, extract_black_lines. rewrite get2_fmap, Hp. simpl.
  split.
  - intros (v & [= <-] & Hlt). destruct (is_black p); [done|lia].
  - intros ->. exists 255%Z. split; [done|lia].
Qed.

Lemma remove_green_screen_shape {A} img threshold aggressive
    (m : list (list A)) :
  Numpy.same_shape (remove_green_screen img threshold aggressive) m
  = Numpy.same_shape img m.
Proof.
  unfold remove_green_screen. rewrite assign_channel_pointwise.
  rewrite same_shape_zip_with.
  - unfold Numpy.same_shape, convert_RGBA. by rewrite fmap_length_fmap.
  - unfold Numpy.same_shape. apply bool_decide_eq_true.
    by rewrite fmap_length_fmap.
Qed.

Lemma channel_remove_green_screen_px k threshold aggressive p :
  k < 3 →
  channel k (let px := to_RGBA p in
             if green_mask threshold aggressive px then <[3 := 0%Z]> px else px)
  = channel k p.
Proof.
  intros Hk. simpl. destruct (green_mask _ _ _).
  - rewrite channel_insert_ne by lia. by apply channel_to_RGBA.
  - by apply channel_to_RGBA.
Qed.

Lemma member_create_yellow_mask frame y x p :
  Numpy.get2 frame y x = Some p →
  is_yellow p = true →
  member 128 (create_yellow_mask frame) y x.
Proof.
  intros Hp Hy. unfold create_yellow_mask, dilate_mask.
  destruct (grown_dilate_loop (Z.to_nat 4)
              (fmap (M := list) (λ px, if is_yellow px then 255%Z else 0%Z)
                 <$> frame) y x 255%Z) as [H|H].
  - rewrite get2_fmap, Hp. simpl. by rewrite Hy.
  - exists 255%Z. split; [done|lia].
  - exists 255%Z. split; [done|lia].
Qed.

Section Pipeline.

Variable resize :
  list (list (list Z)) → nat * nat → list (list (list Z)).

(** C5: the pipeline without a texture.  [process_frame] then goes from
    the standard background removal straight to the outline overlay:
    there is no compositing and no aggressive pass, the result before the
    downsampling is the overlay applied to the background-removed frame,
    and it always exists.  Every pixel outside the outline mask, inside
    the fill mask or not, has the red, green and blue of the source frame,
    and every pixel of the outline mask is black; a pixel that passes the
    fill colour test is in the fill mask and never in the outline mask. *)
Theorem process_frame_no_texture (frame : list (list (list Z))) :
  process_frame_result resize frame None
    = overlay_black_lines (remove_green_screen frame 100 false)
        (extract_black_lines frame)
  ∧ ∃ out,
      process_frame_result resize frame None = Some out
      ∧ process_frame resize frame None = Some (resize out (128, 128))
      ∧ ∀ y x p, Numpy.get2 frame y x = Some p →
          ∃ px', Numpy.get2 out y x = Some px'
            ∧ (¬ member 128 (extract_black_lines frame) y x →
                 channel 0 px' = channel 0 p
                 ∧ channel 1 px' = channel 1 p
                 ∧ channel 2 px' = channel 2 p)
            ∧ (member 128 (extract_black_lines frame) y x →
                 channel 0 px' = 0%Z ∧ channel 1 px' = 0%Z
                 ∧ channel 2 px' = 0%Z)
            ∧ (is_yellow p = true →
                 member 128 (create_yellow_mask frame) y x
                 ∧ ¬ member 128 (extract_black_lines frame) y x).
Proof.
  split; [reflexivity|].
  destruct (overlay_black_lines (remove_green_screen frame 100 false)
              (extract_black_lines frame)) as [out|] eqn:Hout.
  - exists out. unfold process_frame, process_frame_result. simpl.
    rewrite Hout. split; [done|]. split; [done|].
    apply overlay_black_lines_pointwise in Hout as [_ ->].
    intros y x p Hp.
    rewrite get2_zip_with, get2_remove_green_screen, Hp, get2_gt. simpl.
    unfold extract_black_lines at 1. rewrite get2_fmap, Hp. simpl.
    eexists. split; [reflexivity|].
    rewrite (member_extract_black_lines frame y x p Hp). repeat split.
    + destruct (is_black p); [done|]. simpl.
      by rewrite (channel_remove_green_screen_px _ 100 false p) by lia.
    + destruct (is_black p); [done|]. simpl.
      by rewrite (channel_remove_green_screen_px _ 100 false p) by lia.
    + destruct (is_black p); [done|]. simpl.
      by rewrite (channel_remove_green_screen_px _ 100 false p) by lia.
    + rewrite H. simpl. apply black_channels.
    + rewrite H. simpl. apply black_channels.
    + rewrite H. simpl. apply black_channels.
    + by apply (member_create_yellow_mask frame y x p).
    + by rewrite (yellow_not_black p H).
  - exfalso. unfold overlay_black_lines in Hout.
    rewrite remove_green_screen_shape in Hout.
    assert (Numpy.same_shape frame
              (Numpy.gt (extract_black_lines frame) 128) = true) as Hs.
    { unfold Numpy.same_shape, Numpy.gt, extract_black_lines.
      apply bool_decide_eq_true. by rewrite !fmap_length_fmap. }
    by rewrite Hs in Hout.
Qed.

End Pipeline.

Lemma process_frame_no_texture_witness :
  ∃ px',
    Numpy.get2
      [[[230; 170; 50; 255]; [0; 0; 0; 255]; [22; 187; 0; 0]]]%Z 0 0 = Some px'
    ∧ channel 0 px' = 230%Z ∧ channel 1 px' = 170%Z ∧ channel 2 px' = 50%Z.
Proof.
  destruct (process_frame_no_texture (λ img _, img)
              [[[230; 170; 50]; [10; 10; 10]; [22; 187; 0]]]%Z)
    as (_ & out & Hout & _ & H).
  injection Hout as <-.
  destruct (H 0 0 [230; 170; 50]%Z eq_refl)
    as (px' & Hpx' & Hrgb & _ & Hyellow).
  exists px'. split; [exact Hpx'|].
  apply Hrgb, Hyellow. reflexivity.
Defined.

(** A fill pixel next to an outline pixel.  The dilation takes the outline
    pixel at (1, 1) into the fill mask; without a texture the overlay still
    paints it black, so its colour (10, 10, 10) is not the colour of the
    output. *)
Lemma process_frame_no_texture_fill_mask_changes :
  process_frame_result (λ img _, img)
    [[[230; 170; 50]; [22; 187; 0]; [22; 187; 0]];
     [[22; 187; 0]; [10; 10; 10]; [22; 187; 0]];
     [[22; 187; 0]; [22; 187; 0]; [22; 187; 0]]]%Z None
  = Some
    [[[230; 170; 50; 255]; [22; 187; 0; 0]; [22; 187; 0; 0]];
     [[22; 187; 0; 0]; [0; 0; 0; 255]; [22; 187; 0; 0]];
     [[22; 187; 0; 0]; [22; 187; 0; 0]; [22; 187; 0; 0]]]%Z
  ∧ create_yellow_mask
      [[[230; 170; 50]; [22; 187; 0]; [22; 187; 0]];
       [[22; 187; 0]; [10; 10; 10]; [22; 187; 0]];
       [[22; 187; 0]; [22; 187; 0]; [22; 187; 0]]]%Z
    = [[255; 0; 0]; [0; 255; 0]; [0; 0; 0]]%Z
  ∧ member 128 [[255; 0; 0]; [0; 255; 0]; [0; 0; 0]]%Z 1 1
  ∧ ¬ (∀ y x p px',
         member 128
           (create_yellow_mask
              [[[230; 170; 50]; [22; 187; 0]; [22; 187; 0]];
               [[22; 187; 0]; [10; 10; 10]; [22; 187; 0]];
               [[22; 187; 0]; [22; 187; 0]; [22; 187; 0]]]%Z) y x →
         Numpy.get2
           [[[230; 170; 50]; [22; 187; 0]; [22; 187; 0]];
            [[22; 187; 0]; [10; 10; 10]; [22; 187; 0]];
            [[22; 187; 0]; [22; 187; 0]; [22; 187; 0]]]%Z y x = Some p →
         Numpy.get2
           [[[230; 170; 50; 255]; [22; 187; 0; 0]; [22; 187; 0; 0]];
            [[22; 187; 0; 0]; [0; 0; 0; 255]; [22; 187; 0; 0]];
            [[22; 187; 0; 0]; [22; 187; 0; 0]; [22; 187; 0; 0]]]%Z y x
           = Some px' →
         channel 0 px' = channel 0 p ∧ channel 1 px' = channel 1 p
         ∧ channel 2 px' = channel 2 p).
Proof.
  assert (member 128 [[255; 0; 0]; [0; 255; 0]; [0; 0; 0]]%Z 1 1) as Hm.
  { exists 255%Z. split; [reflexivity | lia]. }
  split; [reflexivity|]. split; [reflexivity|]. split; [exact Hm|].
  intros H.
  destruct (H 1 1 [10; 10; 10]%Z [0; 0; 0; 255]%Z Hm eq_refl eq_refl)
    as (H0 & _ & _).
  discriminate H0.
Qed.

(** The pipeline with a red texture on a 5x5 frame: one fill pixel inside a
    ring of outline pixels on the background colour.  The background comes
    out transparent, the ring black and opaque, and the fill pixel, the
    brightest of the fill mask, takes the texture colour at shading 1.0. *)
Example process_frame_with_texture :
  process_frame_result (λ img _, img)
    [[[22; 187; 0]; [22; 187; 0]; [22; 187; 0]; [22; 187; 0]; [22; 187; 0]];
     [[22; 187; 0]; [10; 10; 10]; [10; 10; 10]; [10; 10; 10]; [22; 187; 0]];
     [[22; 187; 0]; [10; 10; 10]; [230; 170; 50]; [10; 10; 10]; [22; 187; 0]];
     [[22; 187; 0]; [10; 10; 10]; [10; 10; 10]; [10; 10; 10]; [22; 187; 0]];
     [[22; 187; 0]; [22; 187; 0]; [22; 187; 0]; [22; 187; 0]; [22; 187; 0]]]%Z
    (Some (replicate 5 (replicate 5 [255; 0; 0]%Z)))
  = Some
    [[[22; 187; 0; 0]; [22; 187; 0; 0]; [22; 187; 0; 0]; [22; 187; 0; 0];
      [22; 187; 0; 0]];
     [[22; 187; 0; 0]; [0; 0; 0; 255]; [0; 0; 0; 255]; [0; 0; 0; 255];
      [22; 187; 0; 0]];
     [[22; 187; 0; 0]; [0; 0; 0; 255]; [255; 0; 0; 255]; [0; 0; 0; 255];
      [22; 187; 0; 0]];
     [[22; 187; 0; 0]; [0; 0; 0; 255]; [0; 0; 0; 255]; [0; 0; 0; 255];
      [22; 187; 0; 0]];
     [[22; 187; 0; 0]; [22; 187; 0; 0]; [22; 187; 0; 0]; [22; 187; 0; 0];
      [22; 187; 0; 0]]]%Z.
Proof. reflexivity. Qed.

(** * Further properties of the pipeline *)

(** ** Arrays, position by position *)

Lemma array_ext {A} (a b : list (list A)) :
  length <$> a = length <$> b →
  (∀ y x, Numpy.get2 a y x = Numpy.get2 b y x) →
  a = b.
Proof.
  intros Hlen Hget. apply list_eq. intros y.
  assert (fmap (M := option) length (a !! y)
          = fmap (M := option) length (b !! y)) as Hy.
  { rewrite <- !list_lookup_fmap. by rewrite Hlen. }
  specialize (Hget y). unfold Numpy.get2 in Hget.
  destruct (a !! y) as [ra|], (b !! y) as [rb|]; simplify_eq/=; try done.
  f_equal. apply list_eq. intros x. apply Hget.
Qed.

Lemma fmap_length_set2 {A} (a : list (list A)) y x v :
  length <$> Numpy.set2 a y x v = length <$> a.
Proof.
  unfold Numpy.set2.
  rewrite (list_fmap_alter length (<[x := v]>) id).
  - by apply list_alter_id.
  - apply Forall_forall. intros row _. apply length_insert.
Qed.

Lemma fmap_length_zip_with {A B C} (f : A → B → C) (a : list (list A))
    (b : list (list B)) :
  length <$> a = length <$> b →
  length <$> zip_with (zip_with f) a b = length <$> a.
Proof.
  revert b. induction a as [|ra a IH]; intros [|rb b] H; simplify_eq/=; try done.
  rewrite IH by done. f_equal. rewrite length_zip_with. lia.
Qed.

Lemma shape_fmap_length {A B} (a : list (list A)) (b : list (list B)) :
  length <$> a = length <$> b → Numpy.shape a = Numpy.shape b.
Proof.
  intros H. unfold Numpy.shape.
  destruct a as [|ra a], b as [|rb b]; simplify_eq/=; try done.
  rewrite <- (length_fmap length a), <- (length_fmap length b). congruence.
Qed.

Lemma get2_slice2 {A} (a : list (list A)) y0 y1 x0 x1 i j :
  Numpy.get2 (Numpy.slice2 a y0 y1 x0 x1) i j =
    if decide (i < y1 - y0 ∧ j < x1 - x0)
    then Numpy.get2 a (y0 + i) (x0 + j) else None.
Proof.
  unfold Numpy.get2, Numpy.slice2.
  rewrite list_lookup_fmap, lookup_take, lookup_drop.
  destruct (decide (i < y1 - y0)) as [Hi|Hi].
  - destruct (a !! (y0 + i)) as [row|]; simpl.
    + rewrite lookup_take, lookup_drop.
      destruct (decide (j < x1 - x0)).
      * by rewrite decide_True.
      * by rewrite decide_False by tauto.
    + by destruct (decide _).
  - simpl. by rewrite decide_False by tauto.
Qed.

(** ** One dilation pass, position by position *)

Lemma window_spec result y x :
  1 ≤ y → 1 ≤ x → window result y x = true ↔ window_hit result y x.
Proof.
  intros Hy Hx. unfold window, window_hit, near. rewrite any_get2. split.
  - intros (i & j & H). rewrite get2_gt, get2_slice2 in H.
    destruct (decide _) as [[Hi Hj]|]; [|done].
    destruct (Numpy.get2 result (y - 1 + i) (x - 1 + j)) as [v|] eqn:Hv;
      simplify_eq/=.
    exists (y - 1 + i), (x - 1 + j), v.
    repeat split; first [lia | done | by apply Z.ltb_lt].
  - intros (y0 & x0 & v & [Hy1 Hy2] & [Hx1 Hx2] & Hv & Hlt).
    exists (y0 + 1 - y), (x0 + 1 - x). rewrite get2_gt, get2_slice2.
    rewrite decide_True by lia.
    replace (y - 1 + (y0 + 1 - y)) with y0 by lia.
    replace (x - 1 + (x0 + 1 - x)) with x0 by lia.
    rewrite Hv. simpl. f_equal. by apply Z.ltb_lt.
Qed.

Lemma get2_foldl_dilate_at result y xs dilated y' x' :
  Numpy.get2 (foldl (dilate_at result y) dilated xs) y' x' =
    if decide (y = y' ∧ x' ∈ xs ∧ window result y x' = true)
    then (λ _, 255%Z) <$> Numpy.get2 dilated y' x'
    else Numpy.get2 dilated y' x'.
Proof.
  revert dilated. induction xs as [|x0 xs IH]; intros dilated; simpl.
  - rewrite decide_False; [done|]. intros (_ & H & _). by apply not_elem_of_nil in H.
  - rewrite IH. unfold dilate_at. fold (window result y x0).
    destruct (decide (y = y' ∧ x' ∈ xs ∧ window result y x' = true))
      as [(-> & Hin & Hw)|Hn].
    + rewrite decide_True by (repeat split; [by right | done]).
      destruct (window result y' x0); [|done].
      rewrite get2_set2. destruct (decide (y' = y' ∧ x0 = x')) as [[_ ->]|]; [|done].
      by destruct (Numpy.get2 dilated y' x').
    + destruct (decide (y = y' ∧ x' ∈ x0 :: xs ∧ window result y x' = true))
        as [(-> & Hin & Hw)|Hn'].
      * apply elem_of_cons in Hin as [->|Hin]; [|by destruct Hn].
        rewrite Hw, get2_set2. by rewrite decide_True.
      * destruct (window result y x0) eqn:Hw; [|done].
        rewrite get2_set2. destruct (decide (y = y' ∧ x0 = x')) as [[-> ->]|]; [|done].
        destruct Hn'. repeat split; [by left | done].
Qed.

Lemma get2_foldl_rows result xs ys dilated y' x' :
  Numpy.get2
    (foldl (λ d y, foldl (dilate_at result y) d xs) dilated ys) y' x' =
    if decide (y' ∈ ys ∧ x' ∈ xs ∧ window result y' x' = true)
    then (λ _, 255%Z) <$> Numpy.get2 dilated y' x'
    else Numpy.get2 dilated y' x'.
Proof.
  revert dilated. induction ys as [|y0 ys IH]; intros dilated; cbn [foldl].
  - rewrite decide_False; [done|]. intros (H & _). by apply not_elem_of_nil in H.
  - rewrite IH, get2_foldl_dilate_at.
    destruct (decide (y' ∈ y0 :: ys ∧ x' ∈ xs ∧ window result y' x' = true))
      as [(Hin & Hx & Hw)|Hn];
    destruct (decide (y' ∈ ys ∧ x' ∈ xs ∧ window result y' x' = true))
      as [(Hin' & Hx' & Hw')|Hn'];
    destruct (decide (y0 = y' ∧ x' ∈ xs ∧ window result y0 x' = true))
      as [(Heq & Hx'' & Hw'')|Hn''];
    try done; try (by destruct (Numpy.get2 dilated y' x')); exfalso.
    + apply elem_of_cons in Hin as [Hin|Hin]; [apply Hn''; by subst | by apply Hn'].
    + apply Hn. split; [by apply list_elem_of_further | done].
    + apply Hn. split; [by apply list_elem_of_further | done].
    + apply Hn. subst. split; [by apply list_elem_of_here | done].
Qed.

Lemma get2_dilate_once mask y x :
  (interior (Numpy.shape mask).1 (Numpy.shape mask).2 y x
   ∧ window_hit mask y x
   ∧ Numpy.get2 (dilate_once mask) y x
     = (λ _, 255%Z) <$> Numpy.get2 mask y x)
  ∨ (¬ (interior (Numpy.shape mask).1 (Numpy.shape mask).2 y x
        ∧ window_hit mask y x)
     ∧ Numpy.get2 (dilate_once mask) y x = Numpy.get2 mask y x).
Proof.
  unfold dilate_once. destruct (Numpy.shape mask) as [h w]. simpl.
  rewrite get2_foldl_rows. unfold interior.
  destruct (decide (_ ∧ _ ∧ window mask y x = true)) as [(Hy & Hx & Hw)|Hn].
  - apply elem_of_seq in Hy, Hx.
    left. split; [lia|]. split; [|done].
    apply window_spec; [lia | lia | done].
  - right. split; [|done]. intros [(? & ? & ? & ?) Hw]. apply Hn.
    rewrite !elem_of_seq.
    repeat split; try lia. apply window_spec; [lia | lia | done].
Qed.

(** ** Mask dilation: shape, border, reach *)

Lemma fmap_length_foldl_dilate_at result y xs dilated :
  length <$> foldl (dilate_at result y) dilated xs = length <$> dilated.
Proof.
  revert dilated. induction xs as [|x xs IH]; intros dilated; simpl; [done|].
  rewrite IH. unfold dilate_at.
  destruct (Numpy.any _); [apply fmap_length_set2 | done].
Qed.

Lemma fmap_length_dilate_once mask :
  length <$> dilate_once mask = length <$> mask.
Proof.
  unfold dilate_once. destruct (Numpy.shape mask) as [h w].
  generalize (seq 1 (h - 2)) as ys. intros ys.
  assert (∀ dilated,
    length <$> foldl (λ d y, foldl (dilate_at mask y) d (seq 1 (w - 2)))
                 dilated ys = length <$> dilated) as H; [|apply H].
  induction ys as [|y ys IH]; intros dilated; simpl; [done|].
  by rewrite IH, fmap_length_foldl_dilate_at.
Qed.

Lemma fmap_length_dilate_loop n mask :
  length <$> dilate_loop n mask = length <$> mask.
Proof.
  revert mask. induction n as [|n IH]; intros mask; simpl; [done|].
  by rewrite IH, fmap_length_dilate_once.
Qed.

(** X1: dilation keeps the shape of the mask: after any number of
    iterations every row has the length it had, so the array has the same
    height and width. *)
Theorem dilate_mask_shape (mask : list (list Z)) (k : Z) :
  length <$> dilate_mask mask k = length <$> mask
  ∧ Numpy.shape (dilate_mask mask k) = Numpy.shape mask.
Proof.
  assert (length <$> dilate_mask mask k = length <$> mask) as H.
  { apply fmap_length_dilate_loop. }
  split; [done|]. by apply shape_fmap_length.
Qed.

Lemma dilate_loop_border n mask y x :
  ¬ interior (Numpy.shape mask).1 (Numpy.shape mask).2 y x →
  Numpy.get2 (dilate_loop n mask) y x = Numpy.get2 mask y x.
Proof.
  intros Hb. induction n as [|n IH]; [done|].
  rewrite dilate_loop_S.
  destruct (get2_dilate_once (dilate_loop n mask) y x) as [(Hi & _)|(_ & ->)];
    [|done].
  rewrite (shape_fmap_length _ mask) in Hi
    by apply fmap_length_dilate_loop. done.
Qed.

(** X2: the outermost ring of the mask is never written.  A pixel in the
    first or last row or column (or outside the array) has after any number
    of iterations the value it had before, whatever its neighbours are. *)
Theorem dilate_mask_border (mask : list (list Z)) (k : Z) (y x : nat) :
  ¬ interior (Numpy.shape mask).1 (Numpy.shape mask).2 y x →
  Numpy.get2 (dilate_mask mask k) y x = Numpy.get2 mask y x.
Proof. apply dilate_loop_border. Qed.

Lemma dilate_mask_border_witness :
  Numpy.get2 (dilate_mask [[0; 0; 0]; [0; 200; 0]; [0; 0; 0]]%Z 3) 0 1
  = Some 0%Z.
Proof.
  rewrite (dilate_mask_border [[0; 0; 0]; [0; 200; 0]; [0; 0; 0]]%Z 3 0 1).
  - reflexivity.
  - unfold interior. simpl. lia.
Defined.

(** X3: one pass of the dilation, pixel by pixel.  A pixel inside the
    outermost ring becomes 255 when some pixel of the 3x3 window around it
    is above 4; every other pixel keeps its value. *)
Theorem dilate_mask_one_pass (mask : list (list Z)) (y x : nat) (v : Z) :
  Numpy.get2 mask y x = Some v →
  (interior (Numpy.shape mask).1 (Numpy.shape mask).2 y x
   ∧ window_hit mask y x
   ∧ Numpy.get2 (dilate_mask mask 1) y x = Some 255%Z)
  ∨ (¬ (interior (Numpy.shape mask).1 (Numpy.shape mask).2 y x
        ∧ window_hit mask y x)
     ∧ Numpy.get2 (dilate_mask mask 1) y x = Some v).
Proof.
  intros Hv. change (dilate_mask mask 1) with (dilate_once mask).
  destruct (get2_dilate_once mask y x) as [(Hi & Hw & H)|(Hn & H)].
  - left. by rewrite H, Hv.
  - right. by rewrite H, Hv.
Qed.

Lemma dilate_mask_one_pass_witness :
  Numpy.get2 (dilate_mask [[0; 0; 0]; [0; 0; 0]; [0; 0; 9]]%Z 1) 1 1
  = Some 255%Z.
Proof.
  destruct (dilate_mask_one_pass [[0; 0; 0]; [0; 0; 0]; [0; 0; 9]]%Z 1 1 0
              eq_refl) as [(_ & _ & H)|(Hn & _)].
  - exact H.
  - exfalso. apply Hn. split.
    + unfold interior. simpl. lia.
    + exists 2, 2, 9%Z. unfold near. repeat split; first [lia | reflexivity].
Defined.

Lemma dilate_loop_add a b mask :
  dilate_loop (a + b) mask = dilate_loop b (dilate_loop a mask).
Proof.
  revert mask. induction a as [|a IH]; intros mask; simpl; [done|]. apply IH.
Qed.

(** X4: iterations add up.  Dilating [a] times and then [b] times is
    dilating [a + b] times, for counts that are not negative. *)
Theorem dilate_mask_add (mask : list (list Z)) (a b : Z) :
  (0 ≤ a)%Z → (0 ≤ b)%Z →
  dilate_mask mask (a + b) = dilate_mask (dilate_mask mask a) b.
Proof.
  intros Ha Hb. unfold dilate_mask.
  rewrite Z2Nat.inj_add by done. apply dilate_loop_add.
Qed.

Lemma dilate_mask_add_witness :
  dilate_mask [[0; 0; 0]; [0; 0; 0]; [0; 0; 9]]%Z (1 + 3)
  = dilate_mask (dilate_mask [[0; 0; 0]; [0; 0; 0]; [0; 0; 9]]%Z 1) 3.
Proof. apply dilate_mask_add; lia. Defined.

Lemma near_S k a b c : near 1 a b → near k b c → near (S k) a c.
Proof. unfold near. lia. Qed.

Lemma near_le k a b : near k a b → near (S k) a b.
Proof. unfold near. lia. Qed.

Lemma dilate_loop_reach n mask y x v' :
  Numpy.get2 (dilate_loop n mask) y x = Some v' →
  Numpy.get2 mask y x = Some v'
  ∨ (v' = 255%Z
     ∧ ∃ y0 x0 v0, near n y y0 ∧ near n x x0
         ∧ Numpy.get2 mask y0 x0 = Some v0 ∧ (4 < v0)%Z).
Proof.
  revert y x v'. induction n as [|n IH]; intros y x v' H; [by left|].
  rewrite dilate_loop_S in H.
  destruct (get2_dilate_once (dilate_loop n mask) y x)
    as [(_ & (y0 & x0 & v0 & Hy & Hx & Hv0 & Hlt) & Heq)|(_ & Heq)];
    rewrite Heq in H.
  - right. split.
    { by destruct (Numpy.get2 (dilate_loop n mask) y x); simplify_eq/=. }
    destruct (IH y0 x0 v0 Hv0) as [Hm|(-> & y1 & x1 & v1 & Hy1 & Hx1 & Hv1 & Hlt1)].
    + exists y0, x0, v0. repeat split; try done; unfold near in *; lia.
    + exists y1, x1, v1. split; [by eapply near_S|]. split; [by eapply near_S|done].
  - destruct (IH y x v' H) as [Hm|(-> & y1 & x1 & v1 & Hy1 & Hx1 & Hv1 & Hlt1)];
      [by left|].
    right. split; [done|]. exists y1, x1, v1.
    split; [by apply near_le|]. split; [by apply near_le|done].
Qed.

(** X5: the mask grows by at most one pixel per iteration.  After [k]
    iterations a pixel has either the value it had, or the value 255 and
    then some pixel at most [k] rows and [k] columns away was above 4 in
    the input mask. *)
Theorem dilate_mask_reach (mask : list (list Z)) (k : Z) (y x : nat) (v' : Z) :
  Numpy.get2 (dilate_mask mask k) y x = Some v' →
  Numpy.get2 mask y x = Some v'
  ∨ (v' = 255%Z
     ∧ ∃ y0 x0 v0, near (Z.to_nat k) y y0 ∧ near (Z.to_nat k) x x0
         ∧ Numpy.get2 mask y0 x0 = Some v0 ∧ (4 < v0)%Z).
Proof. apply dilate_loop_reach. Qed.

Lemma dilate_mask_reach_witness :
  Numpy.get2 [[0; 0; 0]; [0; 0; 0]; [0; 0; 9]]%Z 1 1 = Some 255%Z
  ∨ ∃ y0 x0 v0, near 1 1 y0 ∧ near 1 1 x0
      ∧ Numpy.get2 [[0; 0; 0]; [0; 0; 0]; [0; 0; 9]]%Z y0 x0 = Some v0
      ∧ (4 < v0)%Z.
Proof.
  destruct (dilate_mask_reach [[0; 0; 0]; [0; 0; 0]; [0; 0; 9]]%Z 1 1 1 255
              eq_refl) as [H|(_ & H)].
  - by left.
  - by right.
Defined.

Lemma dilate_once_fixed mask :
  (∀ y x, ¬ (interior (Numpy.shape mask).1 (Numpy.shape mask).2 y x
             ∧ window_hit mask y x)) →
  dilate_once mask = mask.
Proof.
  intros H. apply array_ext; [apply fmap_length_dilate_once|].
  intros y x.
  destruct (get2_dilate_once mask y x) as [(Hi & Hw & _)|(_ & Heq)]; [|done].
  by destruct (H y x).
Qed.

(** X6: masks on which the dilation does nothing.  A mask with fewer than
    three rows or fewer than three columns has no pixel inside the
    outermost ring, and a mask with no value above 4 has nothing to grow
    from: both come back unchanged from any number of iterations. *)
Theorem dilate_mask_fixed (mask : list (list Z)) (k : Z) :
  (Numpy.shape mask).1 < 3 ∨ (Numpy.shape mask).2 < 3
  ∨ (∀ y x v, Numpy.get2 mask y x = Some v → (v ≤ 4)%Z) →
  dilate_mask mask k = mask.
Proof.
  intros H. unfold dilate_mask.
  induction (Z.to_nat k) as [|n IH]; [done|].
  rewrite dilate_loop_S, IH. apply dilate_once_fixed.
  intros y x [(? & ? & ? & ?) (y0 & x0 & v0 & _ & _ & Hv0 & Hlt)].
  destruct H as [H|[H|H]]; [lia | lia |].
  specialize (H y0 x0 v0 Hv0). lia.
Qed.

Lemma dilate_mask_fixed_witness :
  dilate_mask [[0; 255; 0]; [255; 255; 255]]%Z 4
  = [[0; 255; 0]; [255; 255; 255]]%Z.
Proof. apply dilate_mask_fixed. left. simpl. lia. Defined.

(** ** The fill mask *)

(** X7: the fill mask of a frame.  [create_yellow_mask] returns a mask of
    the frame's shape with no value but 0 and 255.  Every pixel that passes
    the colour test is in it; a pixel is in it only if a pixel that passes
    the test lies at most four rows and four columns away; and on the
    outermost ring a pixel is in it exactly when it passes the test itself. *)
Theorem create_yellow_mask_spec (img : list (list (list Z))) :
  length <$> create_yellow_mask img = length <$> img
  ∧ ∀ y x p, Numpy.get2 img y x = Some p →
      ∃ v, Numpy.get2 (create_yellow_mask img) y x = Some v
        ∧ (v = 0%Z ∨ v = 255%Z)
        ∧ (is_yellow p = true → v = 255%Z)
        ∧ (v = 255%Z →
             ∃ y0 x0 p0, near 4 y y0 ∧ near 4 x x0
               ∧ Numpy.get2 img y0 x0 = Some p0 ∧ is_yellow p0 = true)
        ∧ (¬ interior (Numpy.shape img).1 (Numpy.shape img).2 y x →
             v = 255%Z → is_yellow p = true).
Proof.
  unfold create_yellow_mask, dilate_mask.
  set (raw := fmap (M := list) (λ px, if is_yellow px then 255%Z else 0%Z)
                <$> img).
  assert (length <$> raw = length <$> img) as Hraw by apply fmap_length_fmap.
  split; [by rewrite fmap_length_dilate_loop|].
  intros y x p Hp.
  assert (Numpy.get2 raw y x = Some (if is_yellow p then 255%Z else 0%Z))
    as Hr by (unfold raw; by rewrite get2_fmap, Hp).
  assert (∀ y0 x0 v0, Numpy.get2 raw y0 x0 = Some v0 → (4 < v0)%Z →
            ∃ p0, Numpy.get2 img y0 x0 = Some p0 ∧ is_yellow p0 = true)
    as Hyellow.
  { intros y0 x0 v0 H0 Hlt. unfold raw in H0. rewrite get2_fmap in H0.
    destruct (Numpy.get2 img y0 x0) as [p0|]; simplify_eq/=.
    exists p0. split; [done|]. destruct (is_yellow p0); [done|lia]. }
  destruct (grown_dilate_loop (Z.to_nat 4) raw y x _ Hr) as [Hv|Hv];
    eexists; (split; [exact Hv|]).
  - split; [destruct (is_yellow p); auto|].
    split; [by intros ->|]. split.
    + intros E. exists y, x, p. unfold near.
      repeat split; try lia; try done. destruct (is_yellow p); [done|lia].
    + intros _ E. destruct (is_yellow p); [done|lia].
  - split; [by right|]. split; [done|]. split.
    + intros _.
      destruct (dilate_loop_reach _ _ _ _ _ Hv)
        as [H0|(_ & y0 & x0 & v0 & Hy & Hx & H0 & Hlt)].
      * destruct (Hyellow y x 255%Z H0) as (p0 & Hp0 & Hy0); [lia|].
        exists y, x, p0. unfold near. repeat split; try lia; done.
      * destruct (Hyellow y0 x0 v0 H0 Hlt) as (p0 & Hp0 & Hy0).
        by exists y0, x0, p0.
    + intros Hb _. rewrite dilate_loop_border in Hv.
      * rewrite Hr in Hv. destruct (is_yellow p); [done|]. by simplify_eq.
      * by rewrite (shape_fmap_length raw img).
Qed.

Lemma create_yellow_mask_spec_witness :
  ∃ v, Numpy.get2
         (create_yellow_mask
            [[[230; 170; 50]; [22; 187; 0]; [22; 187; 0]];
             [[22; 187; 0]; [10; 10; 10]; [22; 187; 0]];
             [[22; 187; 0]; [22; 187; 0]; [22; 187; 0]]]%Z) 0 0 = Some v
    ∧ v = 255%Z.
Proof.
  destruct (create_yellow_mask_spec
              [[[230; 170; 50]; [22; 187; 0]; [22; 187; 0]];
               [[22; 187; 0]; [10; 10; 10]; [22; 187; 0]];
               [[22; 187; 0]; [22; 187; 0]; [22; 187; 0]]]%Z) as [_ H].
  destruct (H 0 0 [230; 170; 50]%Z eq_refl) as (v & Hv & _ & Hy & _).
  exists v. split; [exact Hv|]. apply Hy. reflexivity.
Defined.

(** ** Chroma key over whole images *)

Lemma zip_with_fmap_self {A B C} (g : A → B → C) (f : A → B)
    (a : list (list A)) :
  zip_with (zip_with g) a (fmap (M := list) f <$> a)
  = fmap (M := list) (λ u, g u (f u)) <$> a.
Proof.
  induction a as [|ra a IH]; csimpl; [done|]. rewrite IH. f_equal.
  clear. induction ra as [|u ra IH]; csimpl; [done|]. by rewrite IH.
Qed.

Lemma remove_green_screen_fmap img threshold aggressive :
  remove_green_screen img threshold aggressive
  = fmap (M := list) (keyed threshold aggressive) <$> img.
Proof.
  unfold remove_green_screen, convert_RGBA. cbv zeta.
  rewrite assign_channel_pointwise, zip_with_fmap_self.
  rewrite <- list_fmap_compose. apply list_fmap_ext. intros _ row _. simpl.
  rewrite <- list_fmap_compose. by apply list_fmap_ext.
Qed.

Lemma to_RGBA_length p : length (to_RGBA p) ≠ 3.
Proof. destruct p as [|r [|g [|b [|a p]]]]; simpl; lia. Qed.

Lemma to_RGBA_id p : length p ≠ 3 → to_RGBA p = p.
Proof. by destruct p as [|r [|g [|b [|a p]]]]. Qed.

Lemma keyed_length threshold aggressive p :
  length (keyed threshold aggressive p) = length (to_RGBA p).
Proof.
  unfold keyed. simpl. destruct (green_mask _ _ _); [|done].
  apply length_insert.
Qed.

Lemma to_RGBA_keyed threshold aggressive p :
  to_RGBA (keyed threshold aggressive p) = keyed threshold aggressive p.
Proof.
  apply to_RGBA_id. rewrite keyed_length. apply to_RGBA_length.
Qed.

Lemma green_mask_insert_alpha threshold aggressive v px :
  green_mask threshold aggressive (<[3 := v]> px)
  = green_mask threshold aggressive px.
Proof. unfold green_mask. by rewrite !channel_insert_ne by done. Qed.

Lemma green_mask_keyed t a t' a' p :
  green_mask t a (keyed t' a' p) = green_mask t a (to_RGBA p).
Proof.
  unfold keyed. simpl. destruct (green_mask t' a' _); [|done].
  apply green_mask_insert_alpha.
Qed.

Lemma keyed_keyed threshold aggressive p :
  keyed threshold aggressive (keyed threshold aggressive p)
  = keyed threshold aggressive p.
Proof.
  unfold keyed at 1. simpl. rewrite to_RGBA_keyed, green_mask_keyed.
  unfold keyed. simpl. destruct (green_mask _ _ _); [|done].
  apply list_insert_insert_eq.
Qed.

(** X8: the green removal is idempotent.  A second pass with the same
    threshold and the same mode returns the image of the first pass. *)
Theorem remove_green_screen_idempotent (img : list (list (list Z)))
    (threshold : Z) (aggressive : bool) :
  remove_green_screen (remove_green_screen img threshold aggressive)
    threshold aggressive
  = remove_green_screen img threshold aggressive.
Proof.
  rewrite !remove_green_screen_fmap.
  rewrite <- list_fmap_compose. apply list_fmap_ext. intros _ row _. simpl.
  rewrite <- list_fmap_compose. apply list_fmap_ext. intros _ p _. simpl.
  apply keyed_keyed.
Qed.

Lemma keyed_aggressive_after_standard p :
  Forall uint8 p →
  keyed 100 true (keyed 100 false p) = keyed 100 true p.
Proof.
  intros Hp. unfold keyed at 1. cbv zeta.
  rewrite to_RGBA_keyed, green_mask_keyed.
  pose proof (uint8_to_RGBA p Hp) as Hq.
  unfold keyed. cbv zeta.
  destruct (green_mask 100 false (to_RGBA p)) eqn:Es; [|done].
  assert (green_mask 100 true (to_RGBA p) = true) as ->.
  { rewrite green_mask_exact in Es by done.
    rewrite green_mask_aggressive_exact by done.
    rewrite !andb_true_iff, !Z.ltb_lt in *. lia. }
  apply list_insert_insert_eq.
Qed.

(** X9: the two passes of [prerender_frame_masks].  On an image of bytes,
    the standard removal followed by the aggressive removal gives the
    image of the aggressive removal alone: the first pass removes nothing
    that the second would keep. *)
Theorem remove_green_screen_standard_then_aggressive
    (img : list (list (list Z))) :
  uint8_image img →
  remove_green_screen (remove_green_screen img 100 false) 100 true
  = remove_green_screen img 100 true.
Proof.
  intros Himg. rewrite !remove_green_screen_fmap.
  rewrite <- list_fmap_compose. apply Forall_fmap_ext_1.
  eapply Forall_impl; [exact Himg|]. intros row Hrow. simpl.
  rewrite <- list_fmap_compose. apply Forall_fmap_ext_1.
  eapply Forall_impl; [exact Hrow|]. intros p Hp. simpl.
  by apply keyed_aggressive_after_standard.
Qed.

Lemma remove_green_screen_standard_then_aggressive_witness :
  remove_green_screen
    (remove_green_screen [[[22; 187; 0]; [150; 160; 40]; [230; 170; 50]]]%Z
       100 false) 100 true
  = [[[22; 187; 0; 0]; [150; 160; 40; 0]; [230; 170; 50; 255]]]%Z.
Proof.
  rewrite remove_green_screen_standard_then_aggressive.
  - reflexivity.
  - solve_uint8.
Defined.

(** X10: the aggressive pass, pixel by pixel, for any threshold argument.
    A pixel of an image of bytes, read as RGBA, gets alpha 0 exactly when
    green > 100, green > red and green > blue (the threshold argument is
    not used in this mode); any other pixel comes out as it went in, and
    red, green and blue never change. *)
Theorem remove_green_screen_aggressive (img : list (list (list Z)))
    (threshold : Z) (y x : nat) (p : list Z) :
  uint8_image img →
  Numpy.get2 img y x = Some p →
  let px := to_RGBA p in
  let r := channel 0 px in
  let g := channel 1 px in
  let b := channel 2 px in
  let background := (100 < g ∧ r < g ∧ b < g)%Z in
  ∃ out,
    Numpy.get2 (remove_green_screen img threshold true) y x = Some out
    ∧ (background → out = <[3 := 0%Z]> px)
    ∧ (¬ background → out = px)
    ∧ (channel 0 out = r ∧ channel 1 out = g ∧ channel 2 out = b).
Proof.
  intros Himg Hp px r g b background.
  assert (Forall uint8 px) as Hpx.
  { apply uint8_to_RGBA. by eapply uint8_get2. }
  assert (green_mask threshold true px = true ↔ background) as Hbg.
  { rewrite green_mask_aggressive_exact by done. unfold background, r, g, b.
    rewrite !andb_true_iff, !Z.ltb_lt. tauto. }
  exists (keyed threshold true p).
  split; [by rewrite get2_remove_green_screen, Hp|].
  unfold keyed. cbv zeta. fold px.
  destruct (green_mask threshold true px) eqn:E.
  - assert background as Hb by by apply Hbg.
    split; [done|]. split; [tauto|].
    by rewrite !channel_insert_ne by done.
  - assert (¬ background) as Hb by (rewrite <- Hbg; congruence).
    split; [tauto|]. by split.
Qed.

Lemma remove_green_screen_aggressive_witness :
  ∃ out,
    Numpy.get2 (remove_green_screen [[[150; 160; 40]]]%Z 7 true) 0 0 = Some out
    ∧ out = [150; 160; 40; 0]%Z.
Proof.
  destruct (remove_green_screen_aggressive [[[150; 160; 40]]]%Z 7 0 0
              [150; 160; 40]%Z) as (out & Hout & Hbg & _).
  - solve_uint8.
  - reflexivity.
  - exists out. split; [exact Hout|]. apply Hbg.
    unfold channel. simpl. lia.
Defined.

(** X11: the image that the green removal returns.  For an RGB or RGBA
    image of bytes the result has the shape of the input, four channels in
    every pixel, and bytes in every channel. *)
Theorem remove_green_screen_well_formed (img : list (list (list Z)))
    (threshold : Z) (aggressive : bool) :
  rgb_or_rgba img →
  uint8_image img →
  let out := remove_green_screen img threshold aggressive in
  length <$> out = length <$> img
  ∧ Forall (Forall (λ px : list Z, length px = 4)) out
  ∧ uint8_image out.
Proof.
  intros Hc Hu out. unfold out. rewrite remove_green_screen_fmap.
  split; [apply fmap_length_fmap|]. split.
  - apply Forall_fmap. eapply Forall_impl; [exact Hc|]. intros row Hrow. simpl.
    apply Forall_fmap. eapply Forall_impl; [exact Hrow|]. intros p Hp. simpl.
    rewrite keyed_length.
    destruct p as [|r [|g [|b [|a [|? p]]]]]; simpl in *; lia.
  - apply Forall_fmap. eapply Forall_impl; [exact Hu|]. intros row Hrow. simpl.
    apply Forall_fmap. eapply Forall_impl; [exact Hrow|]. intros p Hp. simpl.
    unfold keyed. simpl. pose proof (uint8_to_RGBA p Hp).
    destruct (green_mask _ _ _); [|done].
    apply Forall_insert; [done|]. unfold uint8. lia.
Qed.

Lemma remove_green_screen_well_formed_witness :
  uint8_image (remove_green_screen [[[22; 187; 0]; [230; 170; 50; 9]]]%Z 100 false).
Proof.
  apply (remove_green_screen_well_formed [[[22; 187; 0]; [230; 170; 50; 9]]]%Z
           100 false).
  - repeat (first [apply Forall_nil_2 | apply Forall_cons_2]); simpl; lia.
  - solve_uint8.
Defined.

(** ** Shading map: failure, range, extremes, order *)

Lemma fmap_length_assign_masked {A B} (f : B → A) (t : list (list A))
    (m : list (list bool)) (src : list (list B)) :
  length <$> t = length <$> m →
  length <$> m = length <$> src →
  length <$> Numpy.assign_masked f t m src = length <$> t.
Proof.
  intros Htm Hms. unfold Numpy.assign_masked.
  apply fmap_length_zip_with.
  rewrite (fmap_length_zip_with pair) by done. done.
Qed.

(** X12: when the shading extraction fails.  [extract_shading_map] fails
    exactly when the mask has a member pixel and does not have the shape of
    the image; a mask without a member pixel is accepted whatever its
    shape.  A map that is returned has the shape of the image. *)
Theorem extract_shading_map_fails_iff (base_img : list (list (list Z)))
    (mask : list (list Z)) :
  (extract_shading_map base_img mask = None
     ↔ Numpy.any (Numpy.gt mask 128) = true
       ∧ Numpy.same_shape base_img mask = false)
  ∧ ∀ shading, extract_shading_map base_img mask = Some shading →
      length <$> shading = length <$> base_img.
Proof.
  unfold extract_shading_map, Numpy.gt.
  rewrite same_shape_fmap.
  destruct (Numpy.any _) eqn:Hany.
  - destruct (Numpy.same_shape base_img mask) eqn:Hs.
    + apply bool_decide_eq_true in Hs.
      assert (∀ (f : Q → Q) t,
        length <$> t = length <$> base_img →
        length <$> Numpy.assign_masked f t
          (fmap (M := list) (Z.ltb 128) <$> mask) t = length <$> base_img) as Hm1.
      { intros f t Ht. rewrite fmap_length_assign_masked; [done|..];
          rewrite fmap_length_fmap; congruence. }
      assert (∀ (f : Q → Q),
        length <$> Numpy.assign_masked f
          (Numpy.zeros_like (fmap (M := list) luminance <$> base_img))
          (fmap (M := list) (Z.ltb 128) <$> mask)
          (fmap (M := list) luminance <$> base_img) = length <$> base_img) as Hm2.
      { intros f. unfold Numpy.zeros_like.
        rewrite fmap_length_assign_masked; rewrite !fmap_length_fmap; congruence. }
      destruct (Qlt_le_dec _ _); (split; [split; [done | by intros [_ ?]]|]);
        intros shading [= <-].
      * apply Hm1, Hm2.
      * apply Hm2.
    + split; [split; [done | done]|]. done.
  - split; [split; [done | by intros [? _]]|].
    intros shading [= <-]. unfold Numpy.ones_like. by rewrite !fmap_length_fmap.
Qed.

(** X13: inside the mask the shading stays within [0.4, 1.0].  For a mask
    of the image's shape, the map exists and its value at every masked
    pixel is at least 0.4 and at most 1.0. *)
Theorem extract_shading_map_inside_mask (base_img : list (list (list Z)))
    (mask : list (list Z)) (y x : nat) (px : list Z) (v : Z) :
  Numpy.same_shape base_img mask = true →
  Numpy.get2 base_img y x = Some px →
  Numpy.get2 mask y x = Some v →
  (128 < v)%Z →
  ∃ shading s,
    extract_shading_map base_img mask = Some shading
    ∧ Numpy.get2 shading y x = Some s ∧ (0.4 <= s)%Q ∧ (s <= 1.0)%Q.
Proof.
  intros Hs Hpx Hv Hlt.
  destruct (extract_shading_map_total _ _ Hs) as [shading Hsh].
  assert (Numpy.any (Numpy.gt mask 128) = true) as Hany.
  { apply any_get2. exists y, x. rewrite get2_gt, Hv. simpl. f_equal.
    by apply Z.ltb_lt. }
  destruct (extract_shading_map_masked_range _ _ _ y x px v Hany Hsh Hpx Hv Hlt)
    as (s & H1 & H2 & H3).
  by exists shading, s.
Qed.

Lemma extract_shading_map_inside_mask_witness :
  ∃ shading s,
    extract_shading_map [[[200; 150; 40]; [230; 170; 50]; [22; 187; 0]]]%Z
      [[255; 255; 0]]%Z = Some shading
    ∧ Numpy.get2 shading 0 0 = Some s ∧ (0.4 <= s)%Q ∧ (s <= 1.0)%Q.
Proof.
  apply (extract_shading_map_inside_mask
           [[[200; 150; 40]; [230; 170; 50]; [22; 187; 0]]]%Z
           [[255; 255; 0]]%Z 0 0 [200; 150; 40]%Z 255).
  - reflexivity.
  - reflexivity.
  - reflexivity.
  - lia.
Defined.

Lemma extract_shading_map_fails_iff_witness :
  extract_shading_map [[[230; 170; 50]]]%Z [[255; 255]]%Z = None
  ∧ extract_shading_map [[[230; 170; 50]]]%Z [[0; 0]]%Z = Some [[1]]%Q.
Proof.
  split; [|reflexivity].
  apply (extract_shading_map_fails_iff [[[230; 170; 50]]]%Z [[255; 255]]%Z).
  split; reflexivity.
Defined.

Lemma extract_shading_map_Some_shape base_img mask shading :
  Numpy.any (Numpy.gt mask 128) = true →
  extract_shading_map base_img mask = Some shading →
  Numpy.same_shape base_img mask = true.
Proof.
  intros Hany. unfold extract_shading_map. rewrite Hany.
  unfold Numpy.gt. rewrite same_shape_fmap.
  by destruct (Numpy.same_shape base_img mask).
Qed.

Lemma masked_any mask y x v :
  Numpy.get2 mask y x = Some v → (128 < v)%Z →
  Numpy.any (Numpy.gt mask 128) = true.
Proof.
  intros Hv Hlt. apply any_get2. exists y, x. rewrite get2_gt, Hv. simpl.
  f_equal. by apply Z.ltb_lt.
Qed.

Lemma clip_ge_1 (q : Q) : (1 <= q)%Q → Numpy.clip q Float32.f0_4 1.0 == 1.
Proof.
  intros H. apply Qle_antisym.
  - destruct (clip_range q) as [_ Hle].
    eapply Qle_trans; [exact Hle|]. unfold Qle. simpl. lia.
  - unfold Numpy.clip. apply Q.min_glb; [|unfold Qle; simpl; lia].
    eapply Qle_trans; [exact H | apply Q.le_max_l].
Qed.

Lemma clip_le_0 (q : Q) :
  (q <= 0)%Q → Numpy.clip q Float32.f0_4 1.0 == Float32.f0_4.
Proof.
  intros H. apply Qle_antisym; [|apply clip_range].
  unfold Numpy.clip. eapply Qle_trans; [apply Q.le_min_l|].
  apply Q.max_lub; [|apply Qle_refl].
  eapply Qle_trans; [exact H|]. vm_compute. discriminate.
Qed.

Lemma clip_mono (p q : Q) :
  (p <= q)%Q →
  (Numpy.clip p Float32.f0_4 1.0 <= Numpy.clip q Float32.f0_4 1.0)%Q.
Proof.
  intros H. unfold Numpy.clip.
  apply Q.min_le_compat_r. by apply Q.max_le_compat_r.
Qed.

(** X14: the two ends of the shading range.  Luminances are the float32
    numbers that the code computes.  When the masked pixels do not all have
    the same luminance, a brightest masked pixel has shading 1.0 and a
    darkest masked pixel has the float32 number 0.4. *)
Theorem extract_shading_map_extremes (base_img : list (list (list Z)))
    (mask : list (list Z)) (shading : list (list Q))
    (yb xb : nat) (pb : list Z) (vb : Z) (yd xd : nat) (pd : list Z) (vd : Z) :
  extract_shading_map base_img mask = Some shading →
  Numpy.get2 base_img yb xb = Some pb →
  Numpy.get2 mask yb xb = Some vb → (128 < vb)%Z →
  Numpy.get2 base_img yd xd = Some pd →
  Numpy.get2 mask yd xd = Some vd → (128 < vd)%Z →
  (∀ l, masked_luminance base_img mask l →
     (luminance pd <= l)%Q ∧ (l <= luminance pb)%Q) →
  (luminance pd < luminance pb)%Q →
  ∃ sb sd,
    Numpy.get2 shading yb xb = Some sb ∧ sb == 1
    ∧ Numpy.get2 shading yd xd = Some sd ∧ sd == Float32.of_float 0.4.
Proof.
  intros Hsh Hpb Hvb Hlb Hpd Hvd Hld Hall Hlt.
  assert (Float32.of_float 0.4 = Float32.f0_4) as -> by apply float_literals.
  pose proof (masked_any _ _ _ _ Hvb Hlb) as Hany.
  pose proof (extract_shading_map_Some_shape _ _ _ Hany Hsh) as Hs.
  pose proof (extremes_of_mask _ _ Hs Hany) as [[Hmax Hmax_le] [Hmin Hmin_le]].
  cbv zeta in Hmax, Hmax_le, Hmin, Hmin_le.
  set (lums := Numpy.select (fmap (M := list) luminance <$> base_img)
                 (Numpy.gt mask 128)) in *.
  assert (masked_luminance base_img mask (luminance pb)) as Hmb.
  { exists yb, xb, pb, vb. repeat split; assumption. }
  assert (masked_luminance base_img mask (luminance pd)) as Hmd.
  { exists yd, xd, pd, vd. repeat split; assumption. }
  pose proof (Hmax_le _ Hmb) as Hb1. pose proof (Hmin_le _ Hmd) as Hd1.
  destruct (Hall _ Hmax) as [_ Hb2]. destruct (Hall _ Hmin) as [Hd2 _].
  assert (luminance pb == Numpy.max lums) as Eb by (by apply Qle_antisym).
  assert (luminance pd == Numpy.min lums) as Ed by (by apply Qle_antisym).
  eexists _, _.
  rewrite !(get2_extract_shading_map _ _ _ _ _ Hany Hsh), Hpb, Hvb, Hpd, Hvd.
  cbn [mbind option_bind]. fold lums.
  apply Z.ltb_lt in Hlb, Hld. rewrite Hlb, Hld.
  destruct (Qlt_le_dec (Numpy.min lums) (Numpy.max lums)) as [Hd|Hd]; [|lra].
  split; [reflexivity|]. split; [|split; [reflexivity|]].
  - apply clip_ge_1.
    assert (Float32.sub (luminance pb) (Numpy.min lums)
            = Float32.sub (Numpy.max lums) (Numpy.min lums)) as ->.
    { apply round32_comp. lra. }
    rewrite div_diag; [apply Qle_refl|]. apply round32_pos. lra.
  - apply clip_le_0. rewrite (sub_diag _ _ Ed), div_0_l. apply Qle_refl.
Qed.

(** Three fill pixels; the first two have the same luminance in real
    numbers and the second is the brighter one in float32. *)
Lemma extract_shading_map_extremes_witness :
  ∃ shading sb sd,
    extract_shading_map
      [[[255; 135; 12]; [181; 149; 134]; [0; 241; 135]]]%Z
      [[255; 255; 255]]%Z = Some shading
    ∧ Numpy.get2 shading 0 1 = Some sb ∧ sb == 1
    ∧ Numpy.get2 shading 0 2 = Some sd ∧ sd == Float32.of_float 0.4.
Proof.
  assert (∃ shading,
    extract_shading_map
      [[[255; 135; 12]; [181; 149; 134]; [0; 241; 135]]]%Z
      [[255; 255; 255]]%Z = Some shading) as [shading Hsh].
  { eexists. vm_compute. reflexivity. }
  exists shading.
  cut (∃ sb sd, Numpy.get2 shading 0 1 = Some sb ∧ sb == 1
         ∧ Numpy.get2 shading 0 2 = Some sd ∧ sd == Float32.of_float 0.4).
  { intros (sb & sd & H). exists sb, sd. split; [exact Hsh | exact H]. }
  apply (extract_shading_map_extremes
           [[[255; 135; 12]; [181; 149; 134]; [0; 241; 135]]]%Z
           [[255; 255; 255]]%Z shading
           0 1 [181; 149; 134]%Z 255 0 2 [0; 241; 135]%Z 255);
    [exact Hsh | reflexivity | reflexivity | lia
     | reflexivity | reflexivity | lia | | vm_compute; reflexivity].
  intros l (y & x & px & v & Hpx & Hv & Hlt & ->).
  destruct y as [|y]; [|vm_compute in Hpx; discriminate Hpx].
  destruct x as [|[|[|x]]]; vm_compute in Hpx;
    [ injection Hpx as <-; split; vm_compute; discriminate
    | injection Hpx as <-; split; vm_compute; discriminate
    | injection Hpx as <-; split; vm_compute; discriminate
    | discriminate Hpx ].
Defined.

(** X15: the shading follows the luminance.  Of two masked pixels, the one
    with the larger float32 luminance never gets the smaller shading
    value. *)
Theorem extract_shading_map_monotone (base_img : list (list (list Z)))
    (mask : list (list Z)) (shading : list (list Q))
    (y1 x1 : nat) (p1 : list Z) (v1 : Z) (y2 x2 : nat) (p2 : list Z) (v2 : Z) :
  extract_shading_map base_img mask = Some shading →
  Numpy.get2 base_img y1 x1 = Some p1 →
  Numpy.get2 mask y1 x1 = Some v1 → (128 < v1)%Z →
  Numpy.get2 base_img y2 x2 = Some p2 →
  Numpy.get2 mask y2 x2 = Some v2 → (128 < v2)%Z →
  (luminance p1 <= luminance p2)%Q →
  ∃ s1 s2,
    Numpy.get2 shading y1 x1 = Some s1
    ∧ Numpy.get2 shading y2 x2 = Some s2 ∧ (s1 <= s2)%Q.
Proof.
  intros Hsh Hp1 Hv1 Hl1 Hp2 Hv2 Hl2 Hle.
  pose proof (masked_any _ _ _ _ Hv1 Hl1) as Hany.
  eexists _, _.
  rewrite !(get2_extract_shading_map _ _ _ _ _ Hany Hsh), Hp1, Hv1, Hp2, Hv2.
  cbn [mbind option_bind]. apply Z.ltb_lt in Hl1, Hl2. rewrite Hl1, Hl2.
  split; [reflexivity|]. split; [reflexivity|].
  destruct (Qlt_le_dec _ _) as [Hd|Hd]; [|apply Qle_refl].
  apply clip_mono, div_mono; [|by apply sub_mono].
  apply round32_pos. lra.
Qed.

(** The two pixels whose luminances differ in float32 only: the shading
    values are the float32 number 0.4 and 1.0, in the order of the float32
    luminances. *)
Lemma extract_shading_map_monotone_witness :
  ∃ shading s1 s2,
    extract_shading_map [[[255; 135; 12]; [181; 149; 134]]]%Z
      [[255; 255]]%Z = Some shading
    ∧ Numpy.get2 shading 0 0 = Some s1
    ∧ Numpy.get2 shading 0 1 = Some s2 ∧ (s1 <= s2)%Q.
Proof.
  assert (∃ shading,
    extract_shading_map [[[255; 135; 12]; [181; 149; 134]]]%Z
      [[255; 255]]%Z = Some shading) as [shading Hsh].
  { eexists. vm_compute. reflexivity. }
  exists shading.
  cut (∃ s1 s2, Numpy.get2 shading 0 0 = Some s1
         ∧ Numpy.get2 shading 0 1 = Some s2 ∧ (s1 <= s2)%Q).
  { intros (s1 & s2 & H). exists s1, s2. split; [exact Hsh | exact H]. }
  apply (extract_shading_map_monotone
           [[[255; 135; 12]; [181; 149; 134]]]%Z
           [[255; 255]]%Z shading
           0 0 [255; 135; 12]%Z 255 0 1 [181; 149; 134]%Z 255);
    [exact Hsh | reflexivity | reflexivity | lia
     | reflexivity | reflexivity | lia | vm_compute; discriminate].
Defined.

(** ** Texture compositing, position by position *)

Lemma fmap_length_shade_channel k result mask_bool texture_array shading_map :
  length <$> result = length <$> mask_bool →
  length <$> texture_array = length <$> mask_bool →
  length <$> shading_map = length <$> mask_bool →
  length <$> shade_channel k result mask_bool texture_array shading_map
  = length <$> result.
Proof.
  intros Hr Ht Hs. unfold shade_channel, Numpy.assign_channel_from.
  apply fmap_length_zip_with.
  rewrite (fmap_length_zip_with pair).
  - done.
  - rewrite fmap_length_zip_with; congruence.
Qed.

Lemma same_shape_eq {A B} (a : list (list A)) (b : list (list B)) :
  Numpy.same_shape a b = true ↔ length <$> a = length <$> b.
Proof. unfold Numpy.same_shape. apply bool_decide_eq_true. Qed.

Section CompositingPixels.

Variable resize :
  list (list (list Z)) → nat * nat → list (list (list Z)).

Lemma apply_texture_to_mask_inv base_img texture_img mask original_img out :
  apply_texture_to_mask resize base_img texture_img mask original_img
    = Some out →
  let texture_array :=
    convert_RGBA (if decide (size texture_img = size base_img)
                  then texture_img
                  else resize texture_img (size base_img)) in
  ∃ shading,
    extract_shading_map (default base_img original_img) mask = Some shading
    ∧ length <$> base_img = length <$> mask
    ∧ length <$> texture_array = length <$> mask
    ∧ length <$> shading = length <$> mask
    ∧ out =
        shade_channel 2
          (shade_channel 1
             (shade_channel 0 base_img (Numpy.gt mask 128) texture_array shading)
             (Numpy.gt mask 128) texture_array shading)
          (Numpy.gt mask 128) texture_array shading.
Proof.
  intros H texture_array. unfold apply_texture_to_mask in H.
  fold texture_array in H.
  destruct (extract_shading_map _ mask) as [shading|]; simpl in H; [|done].
  destruct (Numpy.same_shape base_img _ && _ && _) eqn:E; [|done].
  apply andb_true_iff in E as [E Hsh]. apply andb_true_iff in E as [Hb Ht].
  apply same_shape_eq in Hb, Ht, Hsh.
  unfold Numpy.gt in Hb, Ht, Hsh. rewrite fmap_length_fmap in Hb, Ht, Hsh.
  exists shading. by simplify_eq.
Qed.

Lemma apply_texture_to_mask_length base_img texture_img mask original_img out :
  apply_texture_to_mask resize base_img texture_img mask original_img
    = Some out →
  length <$> out = length <$> base_img.
Proof.
  intros H.
  destruct (apply_texture_to_mask_inv _ _ _ _ _ H)
    as (shading & _ & Hb & Ht & Hs & ->).
  set (tex := convert_RGBA _) in *.
  assert (length <$> Numpy.gt mask 128 = length <$> mask) as Hm
    by apply fmap_length_fmap.
  assert (length <$> shade_channel 0 base_img (Numpy.gt mask 128) tex shading
          = length <$> base_img) as E0.
  { apply fmap_length_shade_channel; congruence. }
  assert (length <$> shade_channel 1
            (shade_channel 0 base_img (Numpy.gt mask 128) tex shading)
            (Numpy.gt mask 128) tex shading = length <$> base_img) as E1.
  { rewrite fmap_length_shade_channel; congruence. }
  rewrite fmap_length_shade_channel; congruence.
Qed.

Lemma get2_apply_texture_to_mask base_img texture_img mask original_img out
    y x px :
  apply_texture_to_mask resize base_img texture_img mask original_img
    = Some out →
  Numpy.get2 base_img y x = Some px →
  let texture_array :=
    convert_RGBA (if decide (size texture_img = size base_img)
                  then texture_img
                  else resize texture_img (size base_img)) in
  ∃ shading v t s,
    extract_shading_map (default base_img original_img) mask = Some shading
    ∧ Numpy.get2 mask y x = Some v
    ∧ Numpy.get2 texture_array y x = Some t
    ∧ Numpy.get2 shading y x = Some s
    ∧ Numpy.get2 out y x =
        Some (if (128 <? v)%Z
              then textured t s px
              else px).
Proof.
  intros H Hpx texture_array.
  destruct (apply_texture_to_mask_inv _ _ _ _ _ H)
    as (shading & Hsh & Hb & Ht & Hs & ->).
  fold texture_array in Ht |- *.
  destruct (same_shape_get2_Some base_img mask y x px) as [v Hv];
    [by apply same_shape_eq | done |].
  destruct (same_shape_get2_Some mask texture_array y x v) as [t Htex];
    [by apply same_shape_eq | done |].
  destruct (same_shape_get2_Some mask shading y x v) as [s Hsv];
    [by apply same_shape_eq | done |].
  exists shading, v, t, s. repeat (split; [done|]).
  rewrite !get2_shade_channel, Hpx, get2_gt, Hv, Htex, Hsv. simpl.
  by destruct (128 <? v)%Z.
Qed.

End CompositingPixels.

Lemma uint8_image_get2 img :
  uint8_image img ↔
    ∀ y x px, Numpy.get2 img y x = Some px → Forall uint8 px.
Proof.
  split; [intros H y x px; by apply uint8_get2|].
  intros H. apply Forall_lookup. intros y row Hrow.
  apply Forall_lookup. intros x px Hx.
  apply (H y x). unfold Numpy.get2. by rewrite Hrow.
Qed.

Lemma astype_uint8_range (q : Q) : uint8 (Numpy.astype_uint8 q).
Proof.
  unfold uint8, Numpy.astype_uint8.
  pose proof (Z.mod_pos_bound (Qnum q `quot` Z.pos (Qden q)) 256). lia.
Qed.

Lemma astype_uint8_floor (q : Q) :
  (0 <= q)%Q → (Qfloor q < 256)%Z → Numpy.astype_uint8 q = Qfloor q.
Proof.
  intros H0 Hlt. unfold Numpy.astype_uint8.
  destruct q as [n d]. simpl in *.
  assert (0 ≤ n)%Z as Hn. { unfold Qle in H0. simpl in H0. lia. }
  rewrite Z.quot_div_nonneg by lia.
  apply Z.mod_small. split; [|done]. apply Z.div_pos; lia.
Qed.

Lemma shaded_channel_bounds (c : Z) (s : Q) :
  uint8 c → (0.4 <= s)%Q → (s <= 1.0)%Q →
  (2 * c / 5
   ≤ Numpy.astype_uint8 (Float32.mul (Float32.of_int c) s) ≤ c)%Z.
Proof.
  intros [Hc0 Hc1] Hs0 Hs1. unfold Float32.of_int, Float32.mul.
  set (n := (2 * c / 5)%Z).
  assert (0 ≤ n ∧ n * 5 ≤ 2 * c)%Z as [Hn0 Hn1].
  { unfold n. split; [apply Z.div_pos; lia|].
    pose proof (Z.mul_div_le (2 * c) 5). lia. }
  assert (0 <= inject_Z c)%Q as Hq0.
  { change 0%Q with (inject_Z 0). by rewrite <- Zle_Qle. }
  assert (inject_Z n * 5 <= 2 * inject_Z c)%Q as Hq1.
  { change 5%Q with (inject_Z 5). change 2%Q with (inject_Z 2).
    rewrite <- !inject_Z_mult, <- Zle_Qle. exact Hn1. }
  assert (Float32.round32 (inject_Z c * s) <= inject_Z c)%Q as Hle.
  { rewrite <- (round32_inject_Z c) at 2 by lia.
    apply round32_mono. nra. }
  assert (inject_Z n <= Float32.round32 (inject_Z c * s))%Q as Hge.
  { rewrite <- (round32_inject_Z n) at 1 by lia.
    apply round32_mono. nra. }
  assert (0 <= inject_Z n)%Q as Hq2.
  { change 0%Q with (inject_Z 0). by rewrite <- Zle_Qle. }
  apply Qfloor_resp_le in Hle as Hle', Hge as Hge'.
  rewrite Qfloor_Z in Hle', Hge'.
  rewrite astype_uint8_floor; [lia | lra | lia].
Qed.

Section CompositingProperties.

Variable resize :
  list (list (list Z)) → nat * nat → list (list (list Z)).

(** X16: the colour of a textured pixel.  Where the mask is above 128, each
    of red, green and blue of the result is the float32 product of the
    texture's channel and the shading value, cut to an integer; for a
    texture of bytes it is at most the texture's channel and at least two
    fifths of it (rounded down): the shading darkens the texture and never
    by more than the floor 0.4. *)
Theorem apply_texture_to_mask_masked_bounds
    (base_img texture_img : list (list (list Z))) (mask : list (list Z))
    (original_img : option (list (list (list Z))))
    (out : list (list (list Z))) (y x : nat) (px : list Z) (v : Z) :
  apply_texture_to_mask resize base_img texture_img mask original_img
    = Some out →
  Numpy.get2 base_img y x = Some px →
  3 ≤ length px →
  Numpy.get2 mask y x = Some v →
  (128 < v)%Z →
  let texture_array :=
    convert_RGBA (if decide (size texture_img = size base_img)
                  then texture_img
                  else resize texture_img (size base_img)) in
  ∃ shading t s px',
    extract_shading_map (default base_img original_img) mask = Some shading
    ∧ Numpy.get2 shading y x = Some s
    ∧ Numpy.get2 texture_array y x = Some t
    ∧ Numpy.get2 out y x = Some px'
    ∧ (0.4 <= s)%Q ∧ (s <= 1.0)%Q
    ∧ ∀ k, k < 3 →
        channel k px'
        = Numpy.astype_uint8 (Float32.mul (inject_Z (channel k t)) s)
        ∧ (Forall uint8 t →
             (2 * channel k t / 5 ≤ channel k px' ≤ channel k t)%Z).
Proof.
  intros H Hpx Hlen Hv Hlt texture_array.
  destruct (get2_apply_texture_to_mask resize _ _ _ _ _ y x px H Hpx)
    as (shading & v' & t & s & Hsh & Hv' & Ht & Hs & Hout).
  fold texture_array in Ht.
  assert (v' = v) as -> by congruence.
  pose proof (masked_any _ _ _ _ Hv Hlt) as Hany.
  pose proof (extract_shading_map_Some_shape _ _ _ Hany Hsh) as Hshape.
  rewrite same_shape_sym in Hshape.
  destruct (same_shape_get2_Some _ _ y x v Hshape Hv) as [psrc Hsrc].
  destruct (extract_shading_map_masked_range _ _ _ y x psrc v Hany Hsh Hsrc Hv Hlt)
    as (s' & Hs' & Hs0 & Hs1).
  assert (s' = s) as -> by congruence.
  apply Z.ltb_lt in Hlt. rewrite Hlt in Hout.
  exists shading, t, s, (textured t s px).
  split; [exact Hsh|]. split; [exact Hs|].
  split; [exact Ht|]. split; [exact Hout|].
  split; [exact Hs0|]. split; [exact Hs1|].
  intros k Hk.
  assert (channel k (textured t s px)
          = Numpy.astype_uint8 (Float32.mul (inject_Z (channel k t)) s)) as ->.
  { unfold textured, Float32.of_int.
    destruct px as [|c0 [|c1 [|c2 px]]]; simpl in Hlen; try lia.
    by destruct k as [|[|[|k]]]; [..|lia]. }
  split; [reflexivity|]. intros Hu.
  apply shaded_channel_bounds; [by apply uint8_channel | done | done].
Qed.

(** X17: the image that the compositing returns.  For a base image of
    bytes the result is an image of bytes with the shape of the base image,
    and every pixel has as many channels as it had. *)
Theorem apply_texture_to_mask_well_formed
    (base_img texture_img : list (list (list Z))) (mask : list (list Z))
    (original_img : option (list (list (list Z))))
    (out : list (list (list Z))) :
  apply_texture_to_mask resize base_img texture_img mask original_img
    = Some out →
  uint8_image base_img →
  length <$> out = length <$> base_img
  ∧ uint8_image out
  ∧ ∀ y x px, Numpy.get2 base_img y x = Some px →
      ∃ px', Numpy.get2 out y x = Some px' ∧ length px' = length px.
Proof.
  intros H Hu.
  assert (length <$> out = length <$> base_img) as Hlen.
  { by eapply apply_texture_to_mask_length. }
  assert (∀ y x px, Numpy.get2 base_img y x = Some px →
            ∃ px', Numpy.get2 out y x = Some px' ∧ length px' = length px
                   ∧ Forall uint8 px') as Hpix.
  { intros y x px Hpx.
    destruct (get2_apply_texture_to_mask resize _ _ _ _ _ y x px H Hpx)
      as (shading & v & t & s & _ & _ & _ & _ & Hout).
    eexists. split; [exact Hout|].
    pose proof (uint8_get2 _ _ _ _ Hu Hpx) as Hupx.
    destruct (128 <? v)%Z; [|done]. unfold textured.
    split; [by rewrite !length_insert|].
    repeat (apply Forall_insert; [|apply astype_uint8_range]). done. }
  split; [done|]. split.
  - apply uint8_image_get2. intros y x px' Hout.
    destruct (same_shape_get2_Some out base_img y x px') as [px Hpx];
      [by apply same_shape_eq | done |].
    destruct (Hpix y x px Hpx) as (px'' & Hout' & _ & Hu'). by simplify_eq.
  - intros y x px Hpx. destruct (Hpix y x px Hpx) as (px' & ? & ? & _).
    by exists px'.
Qed.

(** X18: a mask without a member pixel.  When no value of the mask is above
    128, the image that the compositing returns is the base image. *)
Theorem apply_texture_to_mask_empty_mask
    (base_img texture_img : list (list (list Z))) (mask : list (list Z))
    (original_img : option (list (list (list Z))))
    (out : list (list (list Z))) :
  apply_texture_to_mask resize base_img texture_img mask original_img
    = Some out →
  Numpy.any (Numpy.gt mask 128) = false →
  out = base_img.
Proof.
  intros H Hany.
  assert (length <$> out = length <$> base_img) as Hlen.
  { by eapply apply_texture_to_mask_length. }
  apply array_ext; [done|]. intros y x.
  destruct (Numpy.get2 base_img y x) as [px|] eqn:Hpx.
  - destruct (get2_apply_texture_to_mask resize _ _ _ _ _ y x px H Hpx)
      as (shading & v & t & s & _ & Hv & _ & _ & Hout).
    rewrite Hout. destruct (128 <? v)%Z eqn:E; [|done].
    assert (Numpy.any (Numpy.gt mask 128) = true); [|congruence].
    apply Z.ltb_lt in E. by eapply masked_any.
  - destruct (Numpy.get2 out y x) as [px'|] eqn:Hout; [|done].
    destruct (same_shape_get2_Some out base_img y x px') as [px Hpx'];
      [by apply same_shape_eq | done | congruence].
Qed.

End CompositingProperties.

(** Two fill pixels with the shading values 0.4 (the float32 number) and
    1.0, under a texture of the colour (15, 150, 255): the darker pixel
    becomes (6, 60, 102). *)
Lemma apply_texture_to_mask_masked_bounds_witness :
  ∃ out px',
    apply_texture_to_mask (λ img _, img)
      [[[255; 135; 12; 255]; [181; 149; 134; 255]]]%Z
      [[[15; 150; 255]; [15; 150; 255]]]%Z [[255; 255]]%Z None = Some out
    ∧ Numpy.get2 out 0 0 = Some px'
    ∧ (6 ≤ channel 0 px' ≤ 15)%Z
    ∧ (60 ≤ channel 1 px' ≤ 150)%Z
    ∧ (102 ≤ channel 2 px' ≤ 255)%Z.
Proof.
  assert (∃ out,
    apply_texture_to_mask (λ img _, img)
      [[[255; 135; 12; 255]; [181; 149; 134; 255]]]%Z
      [[[15; 150; 255]; [15; 150; 255]]]%Z [[255; 255]]%Z None = Some out)
    as [out Hout].
  { eexists. vm_compute. reflexivity. }
  destruct (apply_texture_to_mask_masked_bounds (λ img _, img)
              [[[255; 135; 12; 255]; [181; 149; 134; 255]]]%Z
              [[[15; 150; 255]; [15; 150; 255]]]%Z [[255; 255]]%Z None
              out 0 0 [255; 135; 12; 255]%Z 255 Hout eq_refl)
    as (shading & t & s & px' & _ & _ & Ht & Hpx' & _ & _ & Hk);
    [simpl; lia | reflexivity | lia |].
  vm_compute in Ht. injection Ht as <-.
  assert (Forall uint8 [15; 150; 255; 255]%Z) as Hu.
  { repeat constructor; unfold uint8; lia. }
  exists out, px'. split; [exact Hout|]. split; [exact Hpx'|].
  destruct (Hk 0 ltac:(lia)) as [_ H0].
  destruct (Hk 1 ltac:(lia)) as [_ H1].
  destruct (Hk 2 ltac:(lia)) as [_ H2].
  specialize (H0 Hu). specialize (H1 Hu). specialize (H2 Hu).
  repeat split; first [apply H0 | apply H1 | apply H2].
Defined.

Lemma apply_texture_to_mask_well_formed_witness :
  uint8_image [[[200; 100; 0; 255]; [22; 187; 0; 0]]]%Z.
Proof.
  apply (apply_texture_to_mask_well_formed (λ img _, img)
           [[[230; 170; 50; 255]; [22; 187; 0; 0]]]%Z
           [[[200; 100; 0]; [200; 100; 0]]]%Z [[255; 0]]%Z None
           [[[200; 100; 0; 255]; [22; 187; 0; 0]]]%Z).
  - reflexivity.
  - solve_uint8.
Defined.

Lemma apply_texture_to_mask_empty_mask_witness :
  apply_texture_to_mask (λ img _, img)
    [[[230; 170; 50; 255]; [22; 187; 0; 0]]]%Z
    [[[200; 100; 0]; [200; 100; 0]]]%Z [[100; 0]]%Z None
  = Some [[[230; 170; 50; 255]; [22; 187; 0; 0]]]%Z.
Proof.
  assert (∃ out,
    apply_texture_to_mask (λ img _, img)
      [[[230; 170; 50; 255]; [22; 187; 0; 0]]]%Z
      [[[200; 100; 0]; [200; 100; 0]]]%Z [[100; 0]]%Z None = Some out)
    as [out Hout].
  { eexists. reflexivity. }
  rewrite Hout. f_equal.
  apply (apply_texture_to_mask_empty_mask (λ img _, img) _ _ _ _ _ Hout).
  reflexivity.
Defined.

(** ** Outline overlay and the whole pipeline, position by position *)

Lemma get2_overlay_black_lines base_img line_mask out y x px :
  overlay_black_lines base_img line_mask = Some out →
  Numpy.get2 base_img y x = Some px →
  ∃ v, Numpy.get2 line_mask y x = Some v
    ∧ Numpy.get2 out y x = Some (if (128 <? v)%Z then blackened px else px).
Proof.
  intros H Hpx. apply overlay_black_lines_pointwise in H as [Hs ->].
  destruct (same_shape_get2_Some _ _ y x px Hs Hpx) as [c Hc].
  pose proof Hc as Hv. rewrite get2_gt in Hv.
  destruct (Numpy.get2 line_mask y x) as [v|]; simplify_eq/=.
  exists v. split; [done|]. by rewrite get2_zip_with, Hpx, Hc.
Qed.

(** X19: a line mask without a member pixel.  When no value of the line
    mask is above 128, the image that the overlay returns is the image it
    was given. *)
Theorem overlay_black_lines_empty_mask (base_img : list (list (list Z)))
    (line_mask : list (list Z)) (out : list (list (list Z))) :
  overlay_black_lines base_img line_mask = Some out →
  Numpy.any (Numpy.gt line_mask 128) = false →
  out = base_img.
Proof.
  intros H Hany.
  pose proof (overlay_black_lines_pointwise _ _ _ H) as [Hs Hout].
  apply same_shape_eq in Hs.
  assert (length <$> out = length <$> base_img) as Hlen.
  { rewrite Hout. by apply fmap_length_zip_with. }
  apply array_ext; [done|]. intros y x.
  destruct (Numpy.get2 base_img y x) as [px|] eqn:Hpx.
  - destruct (get2_overlay_black_lines _ _ _ y x px H Hpx) as (v & Hv & ->).
    destruct (128 <? v)%Z eqn:E; [|done].
    assert (Numpy.any (Numpy.gt line_mask 128) = true); [|congruence].
    apply Z.ltb_lt in E. by eapply masked_any.
  - destruct (Numpy.get2 out y x) as [px'|] eqn:Hpx'; [|done].
    destruct (same_shape_get2_Some out base_img y x px') as [px Hpx''];
      [by apply same_shape_eq | done | congruence].
Qed.

Lemma overlay_black_lines_empty_mask_witness :
  overlay_black_lines [[[230; 170; 50; 255]; [22; 187; 0; 0]]]%Z [[0; 128]]%Z
  = Some [[[230; 170; 50; 255]; [22; 187; 0; 0]]]%Z.
Proof.
  assert (∃ out,
    overlay_black_lines [[[230; 170; 50; 255]; [22; 187; 0; 0]]]%Z
      [[0; 128]]%Z = Some out) as [out Hout].
  { eexists. reflexivity. }
  rewrite Hout. f_equal.
  apply (overlay_black_lines_empty_mask _ _ _ Hout). reflexivity.
Defined.

Section PipelinePixels.

Variable resize :
  list (list (list Z)) → nat * nat → list (list (list Z)).

(** The pixel of the result before the downsampling: the pixel [q] that
    reaches the overlay, blackened where the frame's pixel is an outline
    pixel.  Without a texture [q] is the pixel after the standard removal;
    with a texture it is that pixel, textured inside the fill mask, after
    the aggressive removal. *)
Lemma process_frame_result_pixel frame texture out y x p :
  process_frame_result resize frame texture = Some out →
  Numpy.get2 frame y x = Some p →
  ∃ q,
    Numpy.get2 out y x = Some (if is_black p then blackened q else q)
    ∧ match texture with
      | None => q = keyed 100 false p
      | Some _ =>
          ∃ v t s, Numpy.get2 (create_yellow_mask frame) y x = Some v
            ∧ q = keyed 100 true
                    (if (128 <? v)%Z then textured t s (keyed 100 false p)
                     else keyed 100 false p)
      end.
Proof.
  unfold process_frame_result. intros H Hp.
  assert (∀ r q, Numpy.get2 r y x = Some q →
            overlay_black_lines r (extract_black_lines frame) = Some out →
            Numpy.get2 out y x = Some (if is_black p then blackened q else q))
    as Hover.
  { intros r q Hq Ho.
    destruct (get2_overlay_black_lines _ _ _ y x q Ho Hq) as (v & Hv & ->).
    unfold extract_black_lines in Hv. rewrite get2_fmap, Hp in Hv.
    injection Hv as <-. by destruct (is_black p). }
  destruct texture as [texture|]; cbn [mbind option_bind] in H.
  - destruct (apply_texture_to_mask resize _ texture _ _) as [r|] eqn:Hr;
      cbn [mbind option_bind] in H; [|done].
    assert (Numpy.get2 (remove_green_screen frame 100 false) y x
            = Some (keyed 100 false p)) as Hbase
      by by rewrite get2_remove_green_screen, Hp.
    destruct (get2_apply_texture_to_mask resize _ _ _ _ _ y x _ Hr Hbase)
      as (shading & v & t & s & _ & Hv & _ & _ & Hout).
    eexists. split.
    + eapply Hover; [|exact H].
      rewrite get2_remove_green_screen, Hout. reflexivity.
    + by exists v, t, s.
  - exists (keyed 100 false p). split; [|done].
    eapply Hover; [|exact H]. by rewrite get2_remove_green_screen, Hp.
Qed.

End PipelinePixels.

Lemma uint8_keyed threshold aggressive p :
  Forall uint8 p → Forall uint8 (keyed threshold aggressive p).
Proof.
  intros Hp. unfold keyed. cbv zeta. pose proof (uint8_to_RGBA p Hp).
  destruct (green_mask _ _ _); [|done].
  apply Forall_insert; [done|]. unfold uint8. lia.
Qed.

Lemma uint8_textured t s px : Forall uint8 px → Forall uint8 (textured t s px).
Proof.
  intros Hp. unfold textured.
  repeat (apply Forall_insert; [|apply astype_uint8_range]). done.
Qed.

Lemma uint8_blackened px : Forall uint8 px → Forall uint8 (blackened px).
Proof.
  intros Hp. unfold blackened.
  repeat (apply Forall_insert; [|unfold uint8; lia]). done.
Qed.

Lemma keyed_alpha threshold aggressive p :
  keyed threshold aggressive p !! 3 = to_RGBA p !! 3
  ∨ keyed threshold aggressive p !! 3 = Some 0%Z.
Proof.
  unfold keyed. cbv zeta. destruct (green_mask _ _ _); [|by left].
  destruct (decide (3 < length (to_RGBA p))).
  - right. by apply list_lookup_insert_eq.
  - left. by rewrite list_insert_ge by lia.
Qed.

Lemma keyed_channel k threshold aggressive p :
  k < 3 → channel k (keyed threshold aggressive p) = channel k p.
Proof. apply channel_remove_green_screen_px. Qed.

Lemma length_to_RGBA p :
  length p = 3 ∨ length p = 4 → length (to_RGBA p) = 4.
Proof. destruct p as [|r [|g [|b [|a [|? p]]]]]; simpl; lia. Qed.

Section PipelineProperties.

Variable resize :
  list (list (list Z)) → nat * nat → list (list (list Z)).

(** X20: no visible green after the textured pipeline.  With a texture, a
    pixel of the result (before the downsampling) whose green is above 100
    and above its red and its blue is fully transparent: the aggressive
    pass removes every such pixel and the overlay adds none. *)
Theorem process_frame_result_no_visible_green
    (frame texture out : list (list (list Z))) (y x : nat) (p : list Z) :
  process_frame_result resize frame (Some texture) = Some out →
  Numpy.get2 frame y x = Some p →
  length p = 3 ∨ length p = 4 →
  Forall uint8 p →
  ∃ px', Numpy.get2 out y x = Some px'
    ∧ ((100 < channel 1 px' ∧ channel 0 px' < channel 1 px'
        ∧ channel 2 px' < channel 1 px')%Z → px' !! 3 = Some 0%Z).
Proof.
  intros H Hp Hlen Hu.
  destruct (process_frame_result_pixel resize _ _ _ y x p H Hp)
    as (q & Hout & v & t & s & Hv & Hq).
  eexists. split; [exact Hout|].
  destruct (is_black p).
  { pose proof (black_channels q) as (_ & H1 & _). fold (blackened q) in H1.
    rewrite H1. lia. }
  set (q0 := if (128 <? v)%Z then textured t s (keyed 100 false p)
             else keyed 100 false p) in Hq.
  assert (Forall uint8 q0) as Hu0.
  { unfold q0. destruct (128 <? v)%Z;
      [apply uint8_textured|]; by apply uint8_keyed. }
  assert (length q0 = 4) as Hl0.
  { unfold q0. destruct (128 <? v)%Z; unfold textured;
      rewrite ?length_insert, keyed_length; by apply length_to_RGBA. }
  assert (to_RGBA q0 = q0) as Hid by (apply to_RGBA_id; lia).
  subst q. rewrite !keyed_channel by lia.
  unfold keyed. cbv zeta. rewrite Hid.
  destruct (green_mask 100 true q0) eqn:E.
  - intros _. apply list_lookup_insert_eq. lia.
  - intros Hg. rewrite green_mask_aggressive_exact in E by done.
    apply andb_false_iff in E as [E|E]; [apply andb_false_iff in E as [E|E]|];
      apply Z.ltb_ge in E; lia.
Qed.

(** X21: the pipeline only ever takes alpha away.  With or without a
    texture, a pixel of the result has as many channels as the RGBA form of
    the frame's pixel, its alpha is the alpha of that form or 0, and its
    channels are bytes when the frame's are. *)
Theorem process_frame_result_alpha (frame : list (list (list Z)))
    (texture : option (list (list (list Z)))) (out : list (list (list Z)))
    (y x : nat) (p : list Z) :
  process_frame_result resize frame texture = Some out →
  Numpy.get2 frame y x = Some p →
  ∃ px', Numpy.get2 out y x = Some px'
    ∧ length px' = length (to_RGBA p)
    ∧ (px' !! 3 = to_RGBA p !! 3 ∨ px' !! 3 = Some 0%Z)
    ∧ (Forall uint8 p → Forall uint8 px').
Proof.
  intros H Hp.
  destruct (process_frame_result_pixel resize _ _ _ y x p H Hp)
    as (q & Hout & Hq).
  eexists. split; [exact Hout|].
  assert (length q = length (to_RGBA p)
          ∧ (q !! 3 = to_RGBA p !! 3 ∨ q !! 3 = Some 0%Z)
          ∧ (Forall uint8 p → Forall uint8 q)) as (Hl & Ha & Hu).
  { destruct texture as [texture|].
    - destruct Hq as (v & t & s & _ & ->).
      set (q0 := if (128 <? v)%Z then textured t s (keyed 100 false p)
                 else keyed 100 false p).
      assert (length q0 = length (to_RGBA p)) as Hl0.
      { unfold q0. destruct (128 <? v)%Z; unfold textured;
          by rewrite ?length_insert, keyed_length. }
      assert (q0 !! 3 = keyed 100 false p !! 3) as Ha0.
      { unfold q0. destruct (128 <? v)%Z; [|done]. unfold textured.
        by rewrite !list_lookup_insert_ne by done. }
      assert (to_RGBA q0 = q0) as Hid.
      { apply to_RGBA_id. rewrite Hl0. apply to_RGBA_length. }
      split; [by rewrite keyed_length, Hid|]. split.
      + destruct (keyed_alpha 100 true q0) as [E|E]; [|by right].
        rewrite E, Hid, Ha0. apply keyed_alpha.
      + intros Hu. apply uint8_keyed. unfold q0.
        destruct (128 <? v)%Z; [apply uint8_textured|]; by apply uint8_keyed.
    - subst q. split; [apply keyed_length|].
      split; [apply keyed_alpha | apply uint8_keyed]. }
  destruct (is_black p); [|done]. unfold blackened.
  split; [by rewrite !length_insert|].
  split; [by rewrite !list_lookup_insert_ne by done|].
  intros Hup. by apply uint8_blackened, Hu.
Qed.

(** X22: the outline always wins.  With or without a texture, a pixel that
    is in the line mask of the frame (red, green and blue below 140) has
    red, green and blue 0 in the result. *)
Theorem process_frame_result_outline (frame : list (list (list Z)))
    (texture : option (list (list (list Z)))) (out : list (list (list Z)))
    (y x : nat) (p : list Z) :
  process_frame_result resize frame texture = Some out →
  Numpy.get2 frame y x = Some p →
  member 128 (extract_black_lines frame) y x →
  ∃ px', Numpy.get2 out y x = Some px'
    ∧ channel 0 px' = 0%Z ∧ channel 1 px' = 0%Z ∧ channel 2 px' = 0%Z.
Proof.
  intros H Hp Hm.
  destruct (process_frame_result_pixel resize _ _ _ y x p H Hp)
    as (q & Hout & _).
  apply (member_extract_black_lines frame y x p Hp) in Hm. rewrite Hm in Hout.
  eexists. split; [exact Hout|].
  pose proof (black_channels q) as (? & ? & ? & _). by fold (blackened q) in *.
Qed.

(** X23: the textured pipeline away from the fill mask and the outline.  A
    pixel of a frame of bytes that is neither in the fill mask nor in the
    line mask comes out as the aggressive removal alone would leave it:
    red, green and blue of the frame, and alpha 0 exactly when the
    aggressive test holds. *)
Theorem process_frame_result_outside_fill
    (frame texture out : list (list (list Z))) (y x : nat) (p : list Z) :
  process_frame_result resize frame (Some texture) = Some out →
  Numpy.get2 frame y x = Some p →
  Forall uint8 p →
  ¬ member 128 (create_yellow_mask frame) y x →
  ¬ member 128 (extract_black_lines frame) y x →
  Numpy.get2 out y x = Some (keyed 100 true p)
  ∧ Numpy.get2 out y x = Numpy.get2 (remove_green_screen frame 100 true) y x.
Proof.
  intros H Hp Hu Hfill Hline.
  destruct (process_frame_result_pixel resize _ _ _ y x p H Hp)
    as (q & Hout & v & t & s & Hv & ->).
  rewrite (member_extract_black_lines frame y x p Hp) in Hline.
  destruct (is_black p); [done|].
  destruct (128 <? v)%Z eqn:E.
  { destruct Hfill. exists v. split; [done|]. by apply Z.ltb_lt. }
  rewrite keyed_aggressive_after_standard in Hout by done.
  split; [done|]. by rewrite get2_remove_green_screen, Hp.
Qed.

End PipelineProperties.

Lemma process_frame_result_no_visible_green_witness :
  ∃ out px',
    process_frame_result (λ img _, img)
      [[[230; 170; 50]; [150; 160; 40]; [22; 187; 0]]]%Z
      (Some [[[255; 0; 0]; [255; 0; 0]; [255; 0; 0]]]%Z) = Some out
    ∧ Numpy.get2 out 0 1 = Some px' ∧ px' !! 3 = Some 0%Z.
Proof.
  assert (∃ out,
    process_frame_result (λ img _, img)
      [[[230; 170; 50]; [150; 160; 40]; [22; 187; 0]]]%Z
      (Some [[[255; 0; 0]; [255; 0; 0]; [255; 0; 0]]]%Z) = Some out)
    as [out Hout].
  { eexists. vm_compute. reflexivity. }
  destruct (process_frame_result_no_visible_green (λ img _, img) _ _ _ 0 1
              [150; 160; 40]%Z Hout eq_refl) as (px' & Hpx' & Hgreen).
  - by left.
  - solve_uint8.
  - exists out, px'. split; [exact Hout|]. split; [exact Hpx'|].
    apply Hgreen. pose proof Hout as Hout'. vm_compute in Hout'.
    injection Hout' as <-. vm_compute in Hpx'. injection Hpx' as <-.
    vm_compute. repeat split.
Defined.

Lemma process_frame_result_alpha_witness :
  ∃ out px',
    process_frame_result (λ img _, img)
      [[[230; 170; 50]; [150; 160; 40]; [22; 187; 0]]]%Z None = Some out
    ∧ Numpy.get2 out 0 2 = Some px' ∧ length px' = 4.
Proof.
  assert (∃ out,
    process_frame_result (λ img _, img)
      [[[230; 170; 50]; [150; 160; 40]; [22; 187; 0]]]%Z None = Some out)
    as [out Hout].
  { eexists. vm_compute. reflexivity. }
  destruct (process_frame_result_alpha (λ img _, img) _ _ _ 0 2
              [22; 187; 0]%Z Hout eq_refl) as (px' & Hpx' & Hlen & _).
  exists out, px'. split; [exact Hout|]. split; [exact Hpx'|]. exact Hlen.
Defined.

Lemma process_frame_result_outline_witness :
  ∃ out px',
    process_frame_result (λ img _, img)
      [[[230; 170; 50]; [10; 10; 10]; [22; 187; 0]]]%Z
      (Some [[[255; 0; 0]; [255; 0; 0]; [255; 0; 0]]]%Z) = Some out
    ∧ Numpy.get2 out 0 1 = Some px'
    ∧ channel 0 px' = 0%Z ∧ channel 1 px' = 0%Z ∧ channel 2 px' = 0%Z.
Proof.
  assert (∃ out,
    process_frame_result (λ img _, img)
      [[[230; 170; 50]; [10; 10; 10]; [22; 187; 0]]]%Z
      (Some [[[255; 0; 0]; [255; 0; 0]; [255; 0; 0]]]%Z) = Some out)
    as [out Hout].
  { eexists. vm_compute. reflexivity. }
  destruct (process_frame_result_outline (λ img _, img) _ _ _ 0 1
              [10; 10; 10]%Z Hout eq_refl) as (px' & Hpx' & Hrgb).
  - exists 255%Z. split; [reflexivity | lia].
  - exists out, px'. split; [exact Hout|]. split; [exact Hpx' | exact Hrgb].
Defined.

Lemma process_frame_result_outside_fill_witness :
  ∃ out,
    process_frame_result (λ img _, img)
      [[[230; 170; 50]; [150; 160; 40]; [22; 187; 0]]]%Z
      (Some [[[255; 0; 0]; [255; 0; 0]; [255; 0; 0]]]%Z) = Some out
    ∧ Numpy.get2 out 0 1 = Some [150; 160; 40; 0]%Z.
Proof.
  assert (∃ out,
    process_frame_result (λ img _, img)
      [[[230; 170; 50]; [150; 160; 40]; [22; 187; 0]]]%Z
      (Some [[[255; 0; 0]; [255; 0; 0]; [255; 0; 0]]]%Z) = Some out)
    as [out Hout].
  { eexists. vm_compute. reflexivity. }
  exists out. split; [exact Hout|].
  apply (process_frame_result_outside_fill (λ img _, img) _ _ _ 0 1
           [150; 160; 40]%Z Hout eq_refl).
  - solve_uint8.
  - intros (v & Hv & Hlt). vm_compute in Hv. injection Hv as <-. lia.
  - intros (v & Hv & Hlt). vm_compute in Hv. injection Hv as <-. lia.
Defined.

(** ** Stored shading maps and the prerendered arrays *)

Lemma get2_convert_shading_to_uint8 shading y x :
  Numpy.get2 (convert_shading_to_uint8 shading) y x
  = stored_byte <$> Numpy.get2 shading y x.
Proof.
  unfold convert_shading_to_uint8. cbv zeta. rewrite !get2_fmap.
  by destruct (Numpy.get2 shading y x).
Qed.

Lemma stored_byte_range v : (102 ≤ stored_byte v ≤ 255)%Z.
Proof. unfold stored_byte, Numpy.clipZ. lia. Qed.

Lemma astype_uint8_trunc (q : Q) :
  (-1 < q)%Q → (Qfloor q < 256)%Z →
  Numpy.astype_uint8 q = Z.max 0 (Qfloor q).
Proof.
  intros Hlo Hhi. unfold Numpy.astype_uint8.
  destruct q as [n d]. unfold Qlt in Hlo. simpl in *.
  destruct (Z_lt_le_dec n 0) as [Hn|Hn].
  - assert (n `quot` Z.pos d = 0)%Z as ->.
    { rewrite <- (Z.opp_involutive n), Z.quot_opp_l by lia.
      rewrite Z.quot_small by lia. reflexivity. }
    assert (n / Z.pos d = -1)%Z as ->.
    { symmetry. apply (Z.div_unique n (Z.pos d) (-1) (n + Z.pos d)); lia. }
    reflexivity.
  - rewrite Z.quot_div_nonneg by lia.
    pose proof (Z.div_pos n (Z.pos d) Hn ltac:(lia)).
    rewrite Z.mod_small by lia. lia.
Qed.

(** The scaled shading value [(v - 0.4) / 0.6 * 255] of float32
    arithmetic keeps the order of the shading values, and stays between
    -1 and 255 on the shading range. *)
Lemma stored_scale_mono (v1 v2 : Q) :
  (v1 <= v2)%Q →
  (Float32.mul (Float32.div (Float32.sub v1 Float32.f0_4) Float32.f0_6)
     (Float32.of_int 255)
   <= Float32.mul (Float32.div (Float32.sub v2 Float32.f0_4) Float32.f0_6)
        (Float32.of_int 255))%Q.
Proof.
  intros H. apply mul_mono; [vm_compute; discriminate|].
  apply div_mono; [reflexivity|]. by apply sub_mono.
Qed.

Lemma stored_scale_range (v : Q) :
  (0.4 <= v)%Q → (v <= 1.0)%Q →
  (-1 < Float32.mul (Float32.div (Float32.sub v Float32.f0_4) Float32.f0_6)
          (Float32.of_int 255))%Q
  ∧ (Float32.mul (Float32.div (Float32.sub v Float32.f0_4) Float32.f0_6)
       (Float32.of_int 255) <= 255)%Q.
Proof.
  intros H0 H1.
  pose proof (stored_scale_mono _ _ H0) as Hlo.
  pose proof (stored_scale_mono _ _ H1) as Hhi.
  split.
  - eapply Qlt_le_trans; [|exact Hlo]. vm_compute. reflexivity.
  - eapply Qle_trans; [exact Hhi|]. vm_compute. discriminate.
Qed.

Lemma stored_byte_floor v :
  (0.4 <= v)%Q → (v <= 1.0)%Q →
  stored_byte v
  = Z.max 102
      (Qfloor (Float32.mul
                 (Float32.div (Float32.sub v Float32.f0_4) Float32.f0_6)
                 (Float32.of_int 255))).
Proof.
  intros H0 H1. unfold stored_byte.
  destruct (stored_scale_range v H0 H1) as [Hlo Hhi].
  apply Qfloor_resp_le in Hhi.
  change 255%Q with (inject_Z 255) in Hhi. rewrite Qfloor_Z in Hhi.
  rewrite astype_uint8_trunc by (done || lia).
  unfold Numpy.clipZ. lia.
Qed.

Lemma extract_shading_map_length base_img mask shading :
  extract_shading_map base_img mask = Some shading →
  length <$> shading = length <$> base_img.
Proof.
  unfold extract_shading_map, Numpy.gt. rewrite same_shape_fmap.
  destruct (Numpy.any _).
  - destruct (Numpy.same_shape base_img mask) eqn:Hs; [|done].
    apply same_shape_eq in Hs.
    assert (∀ (f : Q → Q) t,
      length <$> t = length <$> base_img →
      length <$> Numpy.assign_masked f t
        (fmap (M := list) (Z.ltb 128) <$> mask) t = length <$> base_img) as Hm1.
    { intros f t Ht. rewrite fmap_length_assign_masked; [done|..];
        rewrite fmap_length_fmap; congruence. }
    assert (∀ (f : Q → Q),
      length <$> Numpy.assign_masked f
        (Numpy.zeros_like (fmap (M := list) luminance <$> base_img))
        (fmap (M := list) (Z.ltb 128) <$> mask)
        (fmap (M := list) luminance <$> base_img) = length <$> base_img) as Hm2.
    { intros f. unfold Numpy.zeros_like.
      rewrite fmap_length_assign_masked; rewrite !fmap_length_fmap; congruence. }
    destruct (Qlt_le_dec _ _); intros H; simplify_eq;
      [apply Hm1, Hm2 | apply Hm2].
  - intros H. simplify_eq. unfold Numpy.ones_like. by rewrite !fmap_length_fmap.
Qed.

(** X24: the stored shading map.  [convert_shading_to_uint8] returns an
    array of the shape of the map, and every byte of it is between 102 and
    255, whatever the shading value was. *)
Theorem convert_shading_to_uint8_range (shading : list (list Q)) :
  length <$> convert_shading_to_uint8 shading = length <$> shading
  ∧ ∀ y x v, Numpy.get2 shading y x = Some v →
      ∃ b, Numpy.get2 (convert_shading_to_uint8 shading) y x = Some b
        ∧ (102 ≤ b ≤ 255)%Z.
Proof.
  split.
  - unfold convert_shading_to_uint8. cbv zeta. by rewrite !fmap_length_fmap.
  - intros y x v Hv. exists (stored_byte v).
    rewrite get2_convert_shading_to_uint8, Hv.
    split; [done | apply stored_byte_range].
Qed.

Lemma convert_shading_to_uint8_range_witness :
  ∃ b, Numpy.get2 (convert_shading_to_uint8 [[0; 0.7]]%Q) 0 0 = Some b
    ∧ (102 ≤ b ≤ 255)%Z.
Proof.
  destruct (convert_shading_to_uint8_range [[0; 0.7]]%Q) as [_ H].
  apply (H 0 0 0%Q). reflexivity.
Defined.

(** X25: the stored byte on the shading range.  For a shading value between
    0.4 and 1.0 the stored byte is (v - 0.4) / 0.6 * 255, computed in
    float32 and rounded down, and 102 where that is smaller; of two such
    values the larger one never gets the smaller byte. *)
Theorem convert_shading_to_uint8_monotone (shading : list (list Q))
    (y1 x1 y2 x2 : nat) (v1 v2 : Q) :
  Numpy.get2 shading y1 x1 = Some v1 →
  Numpy.get2 shading y2 x2 = Some v2 →
  (0.4 <= v1)%Q → (v1 <= v2)%Q → (v2 <= 1.0)%Q →
  let scaled (v : Q) : Q :=
    Float32.mul
      (Float32.div (Float32.sub v (Float32.of_float 0.4))
                   (Float32.of_float 0.6))
      (Float32.of_int 255) in
  ∃ b1 b2,
    Numpy.get2 (convert_shading_to_uint8 shading) y1 x1 = Some b1
    ∧ Numpy.get2 (convert_shading_to_uint8 shading) y2 x2 = Some b2
    ∧ b1 = Z.max 102 (Qfloor (scaled v1))
    ∧ b2 = Z.max 102 (Qfloor (scaled v2))
    ∧ (b1 ≤ b2)%Z.
Proof.
  intros H1 H2 Hlo Hle Hhi scaled. unfold scaled. clear scaled.
  assert (Float32.of_float 0.4 = Float32.f0_4) as -> by apply float_literals.
  assert (Float32.of_float 0.6 = Float32.f0_6) as -> by apply float_literals.
  exists (stored_byte v1), (stored_byte v2).
  rewrite !get2_convert_shading_to_uint8, H1, H2.
  split; [reflexivity|]. split; [reflexivity|].
  rewrite !stored_byte_floor by lra.
  split; [reflexivity|]. split; [reflexivity|].
  pose proof (stored_scale_mono _ _ Hle) as Hq.
  apply Qfloor_resp_le in Hq. lia.
Qed.

(** The shading values 0.5 and the float32 number nearest to 0.8: the
    bytes are 102 and 169. *)
Lemma convert_shading_to_uint8_monotone_witness :
  ∃ b1 b2,
    Numpy.get2 (convert_shading_to_uint8 [[0.5; 13421773 # 16777216]]%Q) 0 0
      = Some b1
    ∧ Numpy.get2 (convert_shading_to_uint8 [[0.5; 13421773 # 16777216]]%Q) 0 1
      = Some b2
    ∧ b1 = 102%Z ∧ b2 = 169%Z ∧ (b1 ≤ b2)%Z.
Proof.
  destruct (convert_shading_to_uint8_monotone
              [[0.5; 13421773 # 16777216]]%Q 0 0 0 1
              0.5%Q (13421773 # 16777216)%Q)
    as (b1 & b2 & Hb1 & Hb2 & E1 & E2 & Hle);
    [reflexivity | reflexivity | vm_compute; discriminate..|].
  exists b1, b2. split; [exact Hb1|]. split; [exact Hb2|].
  split; [rewrite E1; vm_compute; reflexivity|].
  split; [rewrite E2; vm_compute; reflexivity | exact Hle].
Defined.

(** X26: prerendering a frame never fails.  For every frame the fill mask
    has the frame's shape, so the shading extraction accepts it and
    [prerender_frame_masks] returns its four arrays, each of the frame's
    shape; for a frame of bytes the saved base frame is the frame after the
    aggressive green removal alone. *)
Theorem prerender_frame_masks_total (frame : list (list (list Z))) :
  ∃ r,
    prerender_frame_masks frame = Some r
    ∧ length <$> yellow_mask r = length <$> frame
    ∧ length <$> black_lines r = length <$> frame
    ∧ length <$> shading_uint8 r = length <$> frame
    ∧ length <$> base_frame r = length <$> frame
    ∧ (uint8_image frame → base_frame r = remove_green_screen frame 100 true).
Proof.
  assert (length <$> create_yellow_mask frame = length <$> frame) as Hm.
  { unfold create_yellow_mask, dilate_mask.
    by rewrite fmap_length_dilate_loop, fmap_length_fmap. }
  assert (Numpy.same_shape frame (create_yellow_mask frame) = true) as Hs
    by by apply same_shape_eq.
  destruct (extract_shading_map_total _ _ Hs) as [shading Hsh].
  pose proof (extract_shading_map_length _ _ _ Hsh) as Hlen.
  eexists. unfold prerender_frame_masks. rewrite Hsh.
  cbn [mbind option_bind]. split; [reflexivity|].
  cbn [yellow_mask black_lines shading_uint8 base_frame].
  split; [done|].
  split; [unfold extract_black_lines; apply fmap_length_fmap|].
  split.
  { unfold convert_shading_to_uint8. cbv zeta. by rewrite !fmap_length_fmap. }
  split.
  { by rewrite !remove_green_screen_fmap, !fmap_length_fmap. }
  intros Hu. rewrite !remove_green_screen_fmap.
  rewrite <- list_fmap_compose. apply Forall_fmap_ext_1.
  eapply Forall_impl; [exact Hu|]. intros row Hrow. simpl.
  rewrite <- list_fmap_compose. apply Forall_fmap_ext_1.
  eapply Forall_impl; [exact Hrow|]. intros p Hp. simpl.
  by apply keyed_aggressive_after_standard.
Qed.

Lemma prerender_frame_masks_total_witness :
  ∃ r,
    prerender_frame_masks [[[230; 170; 50]; [150; 160; 40]; [22; 187; 0]]]%Z
      = Some r
    ∧ base_frame r
      = [[[230; 170; 50; 255]; [150; 160; 40; 0]; [22; 187; 0; 0]]]%Z.
Proof.
  destruct (prerender_frame_masks_total
              [[[230; 170; 50]; [150; 160; 40]; [22; 187; 0]]]%Z)
    as (r & Hr & _ & _ & _ & _ & Hbase).
  exists r. split; [exact Hr|]. rewrite Hbase; [reflexivity | solve_uint8].
Defined.
